(** * kolibri_daemon.application: session controller and login tokens

    A shallow embedding of [src/kolibri_daemon/application.py]:
    the login-token store ([LoginTokenManager]), the client-hold registry,
    the reconciliation loop and stop timer of [PublicDBusInterface], and the
    hold tokens and option handling of [Application].

    Conventions.
    - Python dictionaries keyed by strings are [gmap string _]; sets are
      [gset _].  No property below depends on dictionary iteration order.
    - [time.monotonic()] readings are binary64 floats ([PyFloat], on the
      Standard Library's executable specification of IEEE 754); every call
      site of the clock receives its reading as an argument.
    - The main loop of a [World] holds the timeout sources this module
      registers.  The inactivity timeout that [Gio.Application] itself
      restarts when its use count returns to zero belongs to Gio and is not
      part of the state; what the module contributes to it, the calls to
      [hold] and [release], is counted.
    - [uuid4().hex] is an input of the operation that draws it.
    - The collaborators whose code is outside this module
      ([KolibriServiceManager], GLib's main loop, Gio's name watcher) are
      taken as parameters or modelled by the few facts the module relies on. *)

From stdpp Require Import gmap strings list fin_maps pretty.
From Stdlib Require Import ZArith Lia Ascii.
From Stdlib Require SpecFloat.

Open Scope Z_scope.

(** ** Python string helpers *)

Module PyStr.

(** [s[n:]] *)
Fixpoint drop (n : nat) (s : string) : string :=
  match n, s with
  | O, _ => s
  | S _, EmptyString => EmptyString
  | S n', String _ s' => drop n' s'
  end.

(** First occurrence of [sep] in [s]: the text before it and the text after. *)
Fixpoint find_sep (sep s : string) : option (string * string) :=
  if String.prefix sep s then Some (EmptyString, drop (String.length sep) s)
  else match s with
       | EmptyString => None
       | String c s' =>
           match find_sep sep s' with
           | Some (h, t) => Some (String c h, t)
           | None => None
           end
       end.

(** [s.partition(sep)] for a non-empty separator (the module only ever
    passes [":"]; Python raises [ValueError] on an empty one). *)
Definition partition (sep s : string) : string * string * string :=
  match find_sep sep s with
  | Some (h, t) => (h, sep, t)
  | None => (s, EmptyString, EmptyString)
  end.

(** [sep.join(l)] *)
Fixpoint join (sep : string) (l : list string) : string :=
  match l with
  | [] => EmptyString
  | [x] => x
  | x :: l' => x +:+ sep +:+ join sep l'
  end.

(** [c in s] for a one-character [c] *)
Fixpoint contains (c : ascii) (s : string) : bool :=
  match s with
  | EmptyString => false
  | String d s' => if Ascii.eqb c d then true else contains c s'
  end.

End PyStr.

(** ** Python floats *)

(** A Python [float] is an IEEE 754 binary64 number. *)
Abbreviation pyfloat := SpecFloat.spec_float.

Module PyFloat.

Definition prec : Z := 53.
Definition emax : Z := 1024.

(** [float(n)] for a Python int, as in [x + n] with [x] a float: the
    nearest binary64 number (an int beyond the range of a float makes
    Python raise [OverflowError]; here it becomes an infinity). *)
Definition of_int (n : Z) : pyfloat :=
  SpecFloat.binary_normalize prec emax n 0 false.

(** [x + y] *)
Definition add (x y : pyfloat) : pyfloat := SpecFloat.SFadd prec emax x y.

(** [x < y]; false as soon as one side is a NaN. *)
Definition ltb (x y : pyfloat) : bool := SpecFloat.SFltb x y.

Definition is_nan (x : pyfloat) : bool :=
  match x with
  | SpecFloat.S754_nan => true
  | _ => false
  end.

(** The later of two clock readings; a NaN is not a reading and gives way
    to the other one. *)
Definition later (x y : pyfloat) : pyfloat :=
  if is_nan x then y
  else if is_nan y then x
  else if ltb x y then y else x.

End PyFloat.

(** Python promotes an int to a float wherever the two meet. *)
Coercion PyFloat.of_int : Z >-> SpecFloat.spec_float.

Global Instance pyfloat_eq_dec : EqDecision pyfloat.
Proof. solve_decision. Defined.

Definition colon : ascii := ":"%char.
Definition SEP : string := ":".

(** ** Data model *)

(** [class UserDetail(NamedTuple)] *)
Record UserDetail := mkUserDetail {
  user_id : Z;
  user_name : string;
  full_name : string;
  is_admin : bool
}.

(** [class LoginToken(NamedTuple)] *)
Record LoginToken := mkLoginToken {
  user : UserDetail;
  key : string;
  expires : pyfloat
}.

Global Instance UserDetail_eq_dec : EqDecision UserDetail.
Proof. solve_decision. Defined.
Global Instance LoginToken_eq_dec : EqDecision LoginToken.
Proof. solve_decision. Defined.

(** [LoginToken.with_expire_time(expires_in, user=, key=)]; [now] is the
    reading of [time.monotonic()], a float, and [expires_in] the int it is
    added to, so the sum is a rounded float sum (the field is annotated
    [int] in the source but holds this float). *)
Definition with_expire_time (now : pyfloat) (expires_in : Z) (u : UserDetail)
    (k : string) : LoginToken :=
  {| user := u; key := k;
     expires := PyFloat.add now (PyFloat.of_int expires_in) |}.

(** [LoginToken.is_expired]: [self.expires < time.monotonic()] *)
Definition is_expired (now : pyfloat) (t : LoginToken) : bool :=
  PyFloat.ltb (expires t) now.

(** [str(n)] for a Python int *)
Definition str (n : Z) : string := pretty n.

(** ** LoginTokenManager *)

Section LoginTokenManager.

(** Class attribute [TOKEN_EXPIRE_TIME] (60 in the source). *)
Variable TOKEN_EXPIRE_TIME : Z.

(** [self.__login_tokens] *)
Local Abbreviation store := (gmap string LoginToken).

(** [__generate_token_key]; [hex] is [uuid4().hex]. *)
Definition generate_token_key (hex uid : string) : string :=
  PyStr.join SEP [uid; hex].

(** [__revoke_expired_tokens] *)
Definition revoke_expired_tokens (now : pyfloat) (st : store) : store :=
  filter (λ kv : string * LoginToken, is_expired now kv.2 = false) st.

(** [__add_login_token] *)
Definition add_login_token (now : pyfloat) (hex : string) (u : UserDetail)
    (st : store) : LoginToken * store :=
  let uid := str (user_id u) in
  let token_key := generate_token_key hex uid in
  let login_token := with_expire_time now TOKEN_EXPIRE_TIME u token_key in
  (login_token, <[uid := login_token]> st).

(** [__pop_login_token].  A [LoginToken] is a non-empty tuple, so the
    truth test [login_token and ...] only fails on [None]. *)
Definition __pop_login_token (token_key : string) (st : store)
    : option LoginToken * store :=
  let '(uid, _sep, _uuid) := PyStr.partition SEP token_key in
  match st !! uid with
  | Some login_token =>
      if bool_decide (key login_token = token_key)
      then (Some login_token, delete uid st)
      else (None, st)
  | None => (None, st)
  end.

(** [generate_for_user]: [now_purge] is the clock during the purge,
    [now_issue] the clock when the new token is stamped. *)
Definition generate_for_user (now_purge now_issue : pyfloat) (hex : string)
    (u : UserDetail) (st : store) : LoginToken * store :=
  add_login_token now_issue hex u (revoke_expired_tokens now_purge st).

(** [pop_login_token] *)
Definition pop_login_token (now : pyfloat) (token_key : string) (st : store)
    : option LoginToken * store :=
  __pop_login_token token_key (revoke_expired_tokens now st).

(** The public operations of the store, for reasoning about sequences. *)
Inductive token_op :=
| GenerateForUser (now_purge now_issue : pyfloat) (hex : string)
    (u : UserDetail)
| PopToken (now : pyfloat) (token_key : string).

Definition run_token_op (o : token_op) (st : store) : store :=
  match o with
  | GenerateForUser tp ti hex u => (generate_for_user tp ti hex u st).2
  | PopToken t k => (pop_login_token t k st).2
  end.

Definition run_token_ops (ops : list token_op) (st : store) : store :=
  foldl (λ s o, run_token_op o s) st ops.

(** An operation that does not issue a token for the user whose id prints
    as [uid]: any redemption, or an issue for somebody else. *)
Definition foreign_op (uid : string) (o : token_op) : Prop :=
  match o with
  | GenerateForUser _ _ _ u => str (user_id u) ≠ uid
  | PopToken _ _ => True
  end.

(** Every stored token is filed under the printed id of its user and its
    key is that id, a colon and a suffix. *)
Definition wf_store (st : store) : Prop :=
  ∀ uid tok, st !! uid = Some tok →
    uid = str (user_id (user tok)) ∧
    ∃ hex, key tok = generate_token_key hex uid.

(** Stores the manager can actually be in. *)
Inductive reachable : store → Prop :=
| reachable_init : reachable ∅
| reachable_step o st : reachable st → reachable (run_token_op o st).

(** The user-id prefix [__pop_login_token] looks a key up under. *)
Definition key_prefix (k : string) : string := (PyStr.partition SEP k).1.1.

(** No stored token answers to the key [k]. *)
Definition not_redeemable (k : string) (st : store) : Prop :=
  ∀ tok, st !! key_prefix k = Some tok → key tok ≠ k.

End LoginTokenManager.

(** ** Collaborators *)

(** The capability [KolibriServiceManager] offers to this module.  Its code
    lives in [kolibri_service.py]; only the calls made here are listed, as
    transitions on an abstract state. *)
Class ServiceManager (SM : Type) := {
  sm_init : SM → SM;
  sm_cleanup : SM → SM;
  sm_start_kolibri : SM → SM;
  sm_stop_kolibri : SM → SM;
  sm_is_running : SM → bool
}.

(** Calls issued to the service manager, for counting them. *)
Inductive SMCall := CallInit | CallCleanup | CallStart | CallStop.

Global Instance SMCall_eq_dec : EqDecision SMCall.
Proof. solve_decision. Defined.

(** Handles handed out by GLib ([guint] source ids) and Gio (watcher ids).
    Both libraries document their ids as greater than zero, which is what
    makes the truth test [if self.__x_timeout_source:] a test for [None];
    ids are therefore [positive]. *)
Record IdPool (A : Type) := mkIdPool {
  live : gmap positive A;
  next_id : positive
}.
Arguments mkIdPool {A} _ _.
Arguments live {A} _.
Arguments next_id {A} _.

Definition pool_empty {A} : IdPool A := mkIdPool ∅ 1%positive.

Definition pool_alloc {A} (x : A) (p : IdPool A) : positive * IdPool A :=
  (next_id p, mkIdPool (<[next_id p := x]> (live p)) (Pos.succ (next_id p))).

Definition pool_free {A} (i : positive) (p : IdPool A) : IdPool A :=
  mkIdPool (delete i (live p)) (next_id p).

(** The three timeout callbacks this module registers with GLib. *)
Inductive TimeoutCallback := WatchChangesCb | AutoStopCb | StopKolibriCb.

Record TimeoutSource := mkTimeoutSource {
  interval_seconds : Z;
  callback : TimeoutCallback
}.

(** [GLib.SOURCE_CONTINUE] / [GLib.SOURCE_REMOVE] *)
Inductive SourceResult := SOURCE_CONTINUE | SOURCE_REMOVE.

(** A D-Bus connection object and a hold token are compared by identity. *)
Definition Connection := positive.
Definition Token := positive.

Definition INACTIVITY_TIMEOUT_MS : Z := 30 * 1000.
Definition DEFAULT_STOP_KOLIBRI_TIMEOUT_SECONDS : Z := 60.
Definition TOKEN_EXPIRE_TIME : Z := 60.

(** ** State of the two objects *)

(** [class Application]: the fields this development reads or writes.
    [hold_calls] and [release_calls] count the calls made to
    [Gio.Application.hold] and [Gio.Application.release]. *)
Record Application := mkApplication {
  use_session_bus : option bool;
  use_system_bus : option bool;
  hold_tokens : gset Token;
  hold_calls : nat;
  release_calls : nat;
  login_tokens : gmap string LoginToken
}.

(** GApplication's use count *)
Definition use_count (a : Application) : Z :=
  Z.of_nat (hold_calls a) - Z.of_nat (release_calls a).

(** [class PublicDBusInterface].  [self_token] is the identity of the object
    (it passes [self] as its hold token); [sm_calls] records the calls issued
    to the service manager, newest first. *)
Record PublicDBusInterface (SM : Type) := mkPublic {
  self_token : Token;
  service_manager : SM;
  sm_calls : list SMCall;
  watch_changes_timeout_source : option positive;
  auto_stop_timeout_source : option positive;
  stop_kolibri_timeout_source : option positive;
  stop_kolibri_timeout_interval : Z;
  hold_clients : gmap string positive
}.
Arguments mkPublic {SM} _ _ _ _ _ _ _ _.
Arguments self_token {SM} _.
Arguments service_manager {SM} _.
Arguments sm_calls {SM} _.
Arguments watch_changes_timeout_source {SM} _.
Arguments auto_stop_timeout_source {SM} _.
Arguments stop_kolibri_timeout_source {SM} _.
Arguments stop_kolibri_timeout_interval {SM} _.
Arguments hold_clients {SM} _.

(** Everything a loop turn can touch: the two objects, GLib's timeout
    sources and Gio's name watchers. *)
Record World (SM : Type) := mkWorld {
  app : Application;
  pub : PublicDBusInterface SM;
  main_loop : IdPool TimeoutSource;
  name_watches : IdPool (Connection * string)
}.
Arguments mkWorld {SM} _ _ _ _.
Arguments app {SM} _.
Arguments pub {SM} _.
Arguments main_loop {SM} _.
Arguments name_watches {SM} _.

(** ** Application *)

Module App.

(** [Gio.Application.hold] *)
Definition hold (a : Application) : Application :=
  mkApplication (use_session_bus a) (use_system_bus a) (hold_tokens a)
    (S (hold_calls a)) (release_calls a) (login_tokens a).

(** [Gio.Application.release].  When the use count returns to zero Gio
    restarts its own inactivity timeout; that source is Gio's and is not
    kept in this state, the call is counted. *)
Definition release (a : Application) : Application :=
  mkApplication (use_session_bus a) (use_system_bus a) (hold_tokens a)
    (hold_calls a) (S (release_calls a)) (login_tokens a).

Definition set_hold_tokens (s : gset Token) (a : Application) : Application :=
  mkApplication (use_session_bus a) (use_system_bus a) s
    (hold_calls a) (release_calls a) (login_tokens a).

Definition set_login_tokens (m : gmap string LoginToken) (a : Application)
  : Application :=
  mkApplication (use_session_bus a) (use_system_bus a) (hold_tokens a)
    (hold_calls a) (release_calls a) m.

Definition set_bus (session system : option bool) (a : Application)
  : Application :=
  mkApplication session system (hold_tokens a)
    (hold_calls a) (release_calls a) (login_tokens a).

(** The object as [__init__] leaves it. *)
Definition init : Application :=
  mkApplication None None ∅ 0 0 ∅.

(** The use count in excess of the number of hold tokens. *)
Definition hold_gap (a : Application) : Z :=
  use_count a - Z.of_nat (size (hold_tokens a)).

(** [reset_inactivity_timeout] *)
Definition reset_inactivity_timeout (a : Application) : Application :=
  release (hold a).

(** [hold_with_token] *)
Definition hold_with_token (token : Token) (a : Application) : Application :=
  if bool_decide (token ∉ hold_tokens a)
  then set_hold_tokens ({[token]} ∪ hold_tokens a) (hold a)
  else a.

(** [release_with_token] *)
Definition release_with_token (token : Token) (a : Application) : Application :=
  if bool_decide (token ∈ hold_tokens a)
  then release (set_hold_tokens (hold_tokens a ∖ {[token]}) a)
  else a.

(** [generate_login_token] *)
Definition generate_login_token (now_purge now_issue : pyfloat)
    (hex : string)
    (u : UserDetail) (a : Application) : LoginToken * Application :=
  let '(tok, st) :=
    generate_for_user TOKEN_EXPIRE_TIME now_purge now_issue hex u
      (login_tokens a) in
  (tok, set_login_tokens st a).

(** [check_login_token] *)
Definition check_login_token (now : pyfloat) (token_key : string)
    (a : Application)
  : option LoginToken * Application :=
  let '(r, st) := pop_login_token now token_key (login_tokens a) in
  (r, set_login_tokens st a).

(** The calls that reach the hold counter. *)
Inductive hold_op :=
| Assert (token : Token)
| Retract (token : Token)
| ResetInactivity.

Definition run_hold_op (o : hold_op) (a : Application) : Application :=
  match o with
  | Assert t => hold_with_token t a
  | Retract t => release_with_token t a
  | ResetInactivity => reset_inactivity_timeout a
  end.

Definition run_hold_ops (ops : list hold_op) (a : Application) : Application :=
  foldl (λ s o, run_hold_op o s) a ops.

(** The parsed command line, as [options.lookup_value] sees it: an option
    that was not given looks up as [None]. *)
Record Options := mkOptions {
  opt_session : option bool;
  opt_system : option bool;
  opt_stop_timeout : option Z
}.

(** What GLib's option parser produces for the flags [--session] and
    [--system] (both [OptionArg.NONE]): a flag that is present is stored as
    [True], one that is absent is not stored. *)
Definition parse_flags (session system : bool) (timeout : option Z) : Options :=
  mkOptions (if session then Some true else None)
            (if system then Some true else None)
            timeout.

End App.

(** [PrivateDBusInterface.__on_check_login_token]: the values of the reply
    dictionary. *)
Inductive Value := VInt (n : Z) | VStr (s : string) | VBool (b : bool).

(** [UserDetail._asdict()] *)
Definition asdict (u : UserDetail) : gmap string Value :=
  <["user_id" := VInt (user_id u)]>
  (<["user_name" := VStr (user_name u)]>
  (<["full_name" := VStr (full_name u)]>
  (<["is_admin" := VBool (is_admin u)]> ∅))).

Definition on_check_login_token (now : pyfloat) (token_key : string)
    (a : Application) : gmap string Value * Application :=
  let a1 := App.reset_inactivity_timeout a in
  let '(login_token, a2) := App.check_login_token now token_key a1 in
  let result_dict :=
    match login_token with
    | Some t => asdict (user t)
    | None => ∅
    end in
  (result_dict, a2).

(** ** PublicDBusInterface and the loop turns *)

Section Controller.
Context {SM : Type} {HSM : ServiceManager SM}.

Local Abbreviation world := (World SM).
Local Abbreviation public := (PublicDBusInterface SM).

Definition set_app (a : Application) (w : world) : world :=
  mkWorld a (pub w) (main_loop w) (name_watches w).

Definition set_pub (p : public) (w : world) : world :=
  mkWorld (app w) p (main_loop w) (name_watches w).

Definition set_main_loop (l : IdPool TimeoutSource) (w : world) : world :=
  mkWorld (app w) (pub w) l (name_watches w).

Definition set_name_watches (l : IdPool (Connection * string)) (w : world)
  : world :=
  mkWorld (app w) (pub w) (main_loop w) l.

Definition set_hold_clients (m : gmap string positive) (p : public) : public :=
  mkPublic (self_token p) (service_manager p) (sm_calls p)
    (watch_changes_timeout_source p) (auto_stop_timeout_source p) (stop_kolibri_timeout_source p)
    (stop_kolibri_timeout_interval p) m.

Definition set_stop_source (s : option positive) (p : public) : public :=
  mkPublic (self_token p) (service_manager p) (sm_calls p)
    (watch_changes_timeout_source p) (auto_stop_timeout_source p) s
    (stop_kolibri_timeout_interval p) (hold_clients p).

Definition set_auto_stop_source (s : option positive) (p : public) : public :=
  mkPublic (self_token p) (service_manager p) (sm_calls p)
    (watch_changes_timeout_source p) s (stop_kolibri_timeout_source p)
    (stop_kolibri_timeout_interval p) (hold_clients p).

Definition set_watch_changes_source (s : option positive) (p : public)
  : public :=
  mkPublic (self_token p) (service_manager p) (sm_calls p)
    s (auto_stop_timeout_source p) (stop_kolibri_timeout_source p)
    (stop_kolibri_timeout_interval p) (hold_clients p).

(** the [autostop_timeout] setter *)
Definition set_autostop_timeout (v : Z) (p : public) : public :=
  mkPublic (self_token p) (service_manager p) (sm_calls p)
    (watch_changes_timeout_source p) (auto_stop_timeout_source p) (stop_kolibri_timeout_source p)
    v (hold_clients p).

(** One call on the service manager: the transition and its record. *)
Definition call_sm (c : SMCall) (f : SM → SM) (p : public) : public :=
  mkPublic (self_token p) (f (service_manager p)) (c :: sm_calls p)
    (watch_changes_timeout_source p) (auto_stop_timeout_source p) (stop_kolibri_timeout_source p)
    (stop_kolibri_timeout_interval p) (hold_clients p).

(** The object as [__init__] leaves it, around a service manager [sm]. *)
Definition public_new (self : Token) (sm : SM) : public :=
  mkPublic self sm [] None None None DEFAULT_STOP_KOLIBRI_TIMEOUT_SECONDS ∅.

(** the [clients_count] property: [len(self.__hold_clients)] *)
Definition clients_count (p : public) : nat := size (hold_clients p).

(** How many times the service manager has been told to stop. *)
Definition stop_calls (p : public) : nat :=
  length (filter (λ c, c = CallStop) (sm_calls p)).

(** [self.__service_manager.is_running()] *)
Definition is_running (p : public) : bool :=
  sm_is_running (service_manager p).

(** [__hold_for_client] *)
Definition hold_for_client (connection : Connection) (name : string)
    (w : world) : world :=
  if bool_decide (name ∈ dom (hold_clients (pub w))) then w
  else
    let '(watch_id, nw) := pool_alloc (connection, name) (name_watches w) in
    set_pub (set_hold_clients (<[name := watch_id]> (hold_clients (pub w)))
               (pub w))
      (set_name_watches nw w).

(** [__release_for_client]: [dict.pop] raises [KeyError] on a missing name,
    which is caught and ignored. *)
Definition release_for_client (name : string) (w : world) : world :=
  match hold_clients (pub w) !! name with
  | None => w
  | Some watch_id =>
      set_name_watches (pool_free watch_id (name_watches w))
        (set_pub (set_hold_clients (delete name (hold_clients (pub w)))
                    (pub w)) w)
  end.

(** [__on_hold_client_vanished] *)
Definition on_hold_client_vanished (connection : Connection) (name : string)
    (w : world) : world :=
  release_for_client name w.

(** [__on_handle_hold]; the invocation carries the connection and sender. *)
Definition on_handle_hold (connection : Connection) (sender : string)
    (w : world) : world :=
  hold_for_client connection sender
    (set_app (App.reset_inactivity_timeout (app w)) w).

(** [__on_handle_release] *)
Definition on_handle_release (sender : string) (w : world) : world :=
  release_for_client sender
    (set_app (App.reset_inactivity_timeout (app w)) w).

(** [__on_handle_start] *)
Definition on_handle_start (w : world) : world :=
  let w1 := set_app (App.reset_inactivity_timeout (app w)) w in
  set_pub (call_sm CallStart sm_start_kolibri (pub w1)) w1.

(** [__on_handle_stop] *)
Definition on_handle_stop (w : world) : world :=
  let w1 := set_app (App.reset_inactivity_timeout (app w)) w in
  set_pub (call_sm CallStop sm_stop_kolibri (pub w1)) w1.

(** [__begin_stop_kolibri_timeout].  [GLib.timeout_add_seconds] takes the
    interval as a [guint]; the source registered here is the one GLib
    registers for an interval in that range (a negative interval does not
    reach GLib: the binding refuses it). *)
Definition begin_stop_kolibri_timeout (w : world) : world :=
  match stop_kolibri_timeout_source (pub w) with
  | Some _ => w
  | None =>
      let '(id, ml) :=
        pool_alloc
          (mkTimeoutSource (stop_kolibri_timeout_interval (pub w))
             StopKolibriCb)
          (main_loop w) in
      set_pub (set_stop_source (Some id) (pub w)) (set_main_loop ml w)
  end.

(** [__cancel_stop_kolibri_timeout] *)
Definition cancel_stop_kolibri_timeout (w : world) : world :=
  match stop_kolibri_timeout_source (pub w) with
  | Some id =>
      set_pub (set_stop_source None (pub w))
        (set_main_loop (pool_free id (main_loop w)) w)
  | None => w
  end.

(** [__begin_watch_changes_timeout] *)
Definition begin_watch_changes_timeout (w : world) : world :=
  match watch_changes_timeout_source (pub w) with
  | Some _ => w
  | None =>
      let '(id, ml) :=
        pool_alloc (mkTimeoutSource 1 WatchChangesCb) (main_loop w) in
      set_pub (set_watch_changes_source (Some id) (pub w)) (set_main_loop ml w)
  end.

(** [__cancel_watch_changes_timeout] *)
Definition cancel_watch_changes_timeout (w : world) : world :=
  match watch_changes_timeout_source (pub w) with
  | Some id =>
      set_pub (set_watch_changes_source None (pub w))
        (set_main_loop (pool_free id (main_loop w)) w)
  | None => w
  end.

(** [__begin_auto_stop_timeout] *)
Definition begin_auto_stop_timeout (w : world) : world :=
  match auto_stop_timeout_source (pub w) with
  | Some _ => w
  | None =>
      let '(id, ml) :=
        pool_alloc (mkTimeoutSource 5 AutoStopCb) (main_loop w) in
      set_pub (set_auto_stop_source (Some id) (pub w)) (set_main_loop ml w)
  end.

(** [__cancel_auto_stop_timeout] *)
Definition cancel_auto_stop_timeout (w : world) : world :=
  match auto_stop_timeout_source (pub w) with
  | Some id =>
      set_pub (set_auto_stop_source None (pub w))
        (set_main_loop (pool_free id (main_loop w)) w)
  | None => w
  end.

(** [__auto_stop_timeout_cb]: the reconciliation tick. *)
Definition auto_stop_timeout_cb (w : world) : world * SourceResult :=
  let w1 := set_pub (call_sm CallCleanup sm_cleanup (pub w)) w in
  let w2 :=
    if bool_decide (clients_count (pub w1) = 0%nat) && is_running (pub w1)
    then begin_stop_kolibri_timeout w1
    else cancel_stop_kolibri_timeout w1 in
  let w3 :=
    if bool_decide (0 < clients_count (pub w2))%nat || is_running (pub w2)
    then set_app (App.hold_with_token (self_token (pub w2)) (app w2)) w2
    else set_app (App.release_with_token (self_token (pub w2)) (app w2)) w2 in
  (w3, SOURCE_CONTINUE).

(** [__stop_kolibri_timeout_cb]: the stop timer firing. *)
Definition stop_kolibri_timeout_cb (w : world) : world * SourceResult :=
  let w1 :=
    if bool_decide (clients_count (pub w) = 0%nat)
    then set_pub (call_sm CallStop sm_stop_kolibri (pub w)) w
    else w in
  (set_pub (set_stop_source None (pub w1)) w1, SOURCE_REMOVE).

(** [__watch_changes_timeout_cb] only refreshes the exported properties,
    which are not part of this state. *)
Definition watch_changes_timeout_cb (w : world) : world * SourceResult :=
  (w, SOURCE_CONTINUE).

Definition run_callback (c : TimeoutCallback) (w : world)
  : world * SourceResult :=
  match c with
  | WatchChangesCb => watch_changes_timeout_cb w
  | AutoStopCb => auto_stop_timeout_cb w
  | StopKolibriCb => stop_kolibri_timeout_cb w
  end.

(** GLib dispatching the timeout source [id]: a source that is no longer
    attached does nothing; one whose callback answers [SOURCE_REMOVE] is
    destroyed afterwards. *)
Definition dispatch (id : positive) (w : world) : world :=
  match live (main_loop w) !! id with
  | None => w
  | Some src =>
      let '(w', r) := run_callback (callback src) w in
      match r with
      | SOURCE_CONTINUE => w'
      | SOURCE_REMOVE => set_main_loop (pool_free id (main_loop w')) w'
      end
  end.

(** [Application.do_handle_local_options].  The truth test on the
    [stop-timeout] variant is PyGObject's: an integer variant is true
    when it is not zero. *)
Definition do_handle_local_options (options : App.Options) (w : world)
  : world * Z :=
  let use_system_bus :=
    match App.opt_system options with
    | Some b => b
    | None => false
    end in
  let use_session_bus :=
    match App.opt_session options with
    | Some b => b
    | None => if use_system_bus then false else true
    end in
  let w1 :=
    set_app (App.set_bus (Some use_session_bus) (Some use_system_bus) (app w))
      w in
  let w2 :=
    match App.opt_stop_timeout options with
    | Some v =>
        if bool_decide (v ≠ 0) then set_pub (set_autostop_timeout v (pub w1)) w1
        else w1
    | None => w1
    end in
  (w2, -1).

(** The calls that reach the hold registry. *)
Inductive registry_op :=
| Hold (connection : Connection) (client : string)
| Release (client : string)
| Vanished (connection : Connection) (client : string).

Definition run_registry_op (o : registry_op) (w : world) : world :=
  match o with
  | Hold c n => hold_for_client c n w
  | Release n => release_for_client n w
  | Vanished c n => on_hold_client_vanished c n w
  end.

Definition run_registry_ops (ops : list registry_op) (w : world) : world :=
  foldl (λ s o, run_registry_op o s) w ops.

(** The clients a sequence of calls leaves held, read off the calls alone:
    a hold adds the client, a release or a disconnect removes it. *)
Definition held_after (o : registry_op) (s : gset string) : gset string :=
  match o with
  | Hold _ n => {[n]} ∪ s
  | Release n => s ∖ {[n]}
  | Vanished _ n => s ∖ {[n]}
  end.

Definition held_clients (ops : list registry_op) (s : gset string)
  : gset string :=
  foldl (λ s o, held_after o s) s ops.

(** [PublicDBusInterface.init] (the search handler is not modelled). *)
Definition public_init (w : world) : world :=
  let w1 := set_pub (call_sm CallInit sm_init (pub w)) w in
  begin_auto_stop_timeout (begin_watch_changes_timeout w1).

(** [PublicDBusInterface.shutdown] (without the search handler and the
    final [join]). *)
Definition public_shutdown (w : world) : world :=
  let w1 := cancel_auto_stop_timeout (cancel_watch_changes_timeout w) in
  set_pub (call_sm CallStop sm_stop_kolibri (pub w1)) w1.

(** [Application.__init__] around the service manager [sm]: the public
    interface is built and initialised, which registers the two periodic
    timeouts. *)
Definition world_init (self : Token) (sm : SM) : world :=
  public_init (mkWorld App.init (public_new self sm) pool_empty pool_empty).

End Controller.

(** A two-state service manager for running the model: the state is
    whether the service runs; cleanup and init leave it alone. *)
Global Instance toy_service_manager : ServiceManager bool := {|
  sm_init := λ b, b;
  sm_cleanup := λ b, b;
  sm_start_kolibri := λ _, true;
  sm_stop_kolibri := λ _, false;
  sm_is_running := λ b, b
|}.

(** ** Sample data for running the model *)

Definition alice : UserDetail := mkUserDetail 1000 "alice" "Alice A." false.
Definition bob : UserDetail := mkUserDetail 1001 "bob" "Bob B." true.

(** Alice's token, issued at clock reading 0 into an empty store. *)
Definition alice_issued : LoginToken * gmap string LoginToken :=
  generate_for_user TOKEN_EXPIRE_TIME 0 0 "0a1b" alice ∅.

(** A freshly built daemon whose service is already running, and the
    controller's own hold token in it. *)
Definition sample_world : World bool := world_init 1%positive true.

(** A client that connects and goes away again. *)
Definition come_and_go : list registry_op :=
  [Hold 5%positive ":1.42"; Hold 5%positive ":1.42"; Release ":1.42";
   Vanished 5%positive ":1.42"].

(** ** Identity resolution and token issue *)

(** [pwd.struct_passwd]: the fields read here. *)
Record PwdUser := mkPwdUser {
  pw_uid : Z;
  pw_name : string;
  pw_gecos : string
}.

(** The user object the accounts service hands back. *)
Module Accounts.
Record User := mkUser {
  user_id : Z;
  user_name : string;
  full_name : string;
  is_admin : bool
}.
End Accounts.

(** [UserDetail.from_accounts_service_user] *)
Definition from_accounts_service_user (a : Accounts.User) : UserDetail :=
  mkUserDetail (Accounts.user_id a) (Accounts.user_name a)
    (Accounts.full_name a) (Accounts.is_admin a).

(** [UserDetail.from_pwd_user(pwd_user, is_admin=...)] *)
Definition from_pwd_user (p : PwdUser) (admin : bool) : UserDetail :=
  mkUserDetail (pw_uid p) (pw_name p) (pw_gecos p) admin.

(** A call into code outside this module either returns or raises. *)
Inductive Outcome (A : Type) :=
| Returned (a : A)
| Raised.
Arguments Returned {A} _.
Arguments Raised {A}.

(** [self.__accounts_service]: [None] until the system bus is acquired,
    then an object whose [get_user_by_id] returns a user or fails; a
    failure (of the call, or of reading the fields of what it returned)
    is [None] here. *)
Definition AccountsService := option (Z → option Accounts.User).

(** [PublicDBusInterface.__get_user_detail]; [local_user_pwd] is the module
    constant [LOCAL_USER_PWD]. *)
Definition get_user_detail (local_user_pwd : option PwdUser)
    (accounts_service : AccountsService) (uid : Z)
  : Outcome (option UserDetail) :=
  let from_directory :=
    match accounts_service with
    | Some get_user_by_id =>
        match get_user_by_id uid with
        | Some remote_user =>
            Returned (Some (from_accounts_service_user remote_user))
        | None => Raised
        end
    | None => Returned None
    end in
  match local_user_pwd with
  | Some p =>
      if bool_decide (uid = pw_uid p)
      then Returned (Some (from_pwd_user p true))
      else from_directory
  | None => from_directory
  end.

(** What the caller of [GetLoginToken] gets back. *)
Inductive LoginTokenReply :=
| ReplyKey (token_key : string)
| ReplyError (message : string)
| HandlerRaised.

Global Instance TimeoutCallback_eq_dec : EqDecision TimeoutCallback.
Proof. solve_decision. Defined.

Section Turns.
Context {SM : Type} {HSM : ServiceManager SM}.
Variable LOCAL_USER_PWD : option PwdUser.

Local Abbreviation world := (World SM).

(** [__on_handle_get_login_token]; [caller_uid] is what
    [get_user_id_for_dbus_invocation] returned for the invocation. *)
Definition on_handle_get_login_token (accounts_service : AccountsService)
    (now_purge now_issue : pyfloat) (hex : string) (caller_uid : Z)
    (w : world)
  : LoginTokenReply * world :=
  let w1 := set_app (App.reset_inactivity_timeout (app w)) w in
  match get_user_detail LOCAL_USER_PWD accounts_service caller_uid with
  | Raised => (HandlerRaised, w1)
  | Returned None => (ReplyError "Error retrieving user details", w1)
  | Returned (Some user_detail) =>
      let '(login_token, a2) :=
        App.generate_login_token now_purge now_issue hex user_detail
          (app w1) in
      (ReplyKey (key login_token), set_app a2 w1)
  end.

(** [__on_check_login_token] as a loop turn. *)
Definition handle_check_login_token (now : pyfloat) (token_key : string)
    (w : world) : gmap string Value * world :=
  let '(reply, a) := on_check_login_token now token_key (app w) in
  (reply, set_app a w).

(** One turn of the event loop: a D-Bus call, a client's name vanishing,
    or GLib dispatching a timeout source. *)
Inductive turn :=
| TurnHold (connection : Connection) (sender : string)
| TurnRelease (sender : string)
| TurnVanished (connection : Connection) (name : string)
| TurnStart
| TurnStop
| TurnGetLoginToken (accounts_service : AccountsService)
    (now_purge now_issue : pyfloat) (hex : string) (caller_uid : Z)
| TurnCheckLoginToken (now : pyfloat) (token_key : string)
| TurnTimeout (id : positive).

Definition run_turn (t : turn) (w : world) : world :=
  match t with
  | TurnHold c n => on_handle_hold c n w
  | TurnRelease n => on_handle_release n w
  | TurnVanished c n => on_hold_client_vanished c n w
  | TurnStart => on_handle_start w
  | TurnStop => on_handle_stop w
  | TurnGetLoginToken svc tp ti hex uid =>
      (on_handle_get_login_token svc tp ti hex uid w).2
  | TurnCheckLoginToken now k => (handle_check_login_token now k w).2
  | TurnTimeout id => dispatch id w
  end.

(** How many times a turn calls [reset_inactivity_timeout]: once in every
    D-Bus method handler, never in the two callbacks. *)
Definition inactivity_resets (t : turn) : nat :=
  match t with
  | TurnVanished _ _ => 0
  | TurnTimeout _ => 0
  | _ => 1
  end.

Definition run_turns (ts : list turn) (w : world) : world :=
  foldl (λ s t, run_turn t s) w ts.

(** The states a daemon built around [sm] can be in. *)
Inductive reachable_world (self : Token) (sm : SM) : world → Prop :=
| reachable_world_init : reachable_world self sm (world_init self sm)
| reachable_world_turn t w :
    reachable_world self sm w → reachable_world self sm (run_turn t w).

(** Every timeout source in the main loop is owned by the handle of its
    kind, every handle names a live source of its kind, and ids are handed
    out in increasing order. *)
Definition handle_of (c : TimeoutCallback) (p : PublicDBusInterface SM)
  : option positive :=
  match c with
  | WatchChangesCb => watch_changes_timeout_source p
  | AutoStopCb => auto_stop_timeout_source p
  | StopKolibriCb => stop_kolibri_timeout_source p
  end.

Definition timers_consistent (w : world) : Prop :=
  (∀ id src, live (main_loop w) !! id = Some src →
     (id < next_id (main_loop w))%positive ∧
     handle_of (callback src) (pub w) = Some id) ∧
  (∀ c id, handle_of c (pub w) = Some id →
     ∃ src, live (main_loop w) !! id = Some src ∧ callback src = c).

(** Every name watcher belongs to the held client it watches, and every
    held client has its watcher. *)
Definition watches_consistent (w : world) : Prop :=
  (∀ id c n, live (name_watches w) !! id = Some (c, n) →
     (id < next_id (name_watches w))%positive ∧
     hold_clients (pub w) !! n = Some id) ∧
  (∀ n id, hold_clients (pub w) !! n = Some id →
     ∃ c, live (name_watches w) !! id = Some (c, n)).

(** The only hold token is the controller's own, and the use count is the
    number of tokens. *)
Definition process_hold_consistent (w : world) : Prop :=
  hold_tokens (app w) ⊆ {[self_token (pub w)]} ∧
  use_count (app w) = Z.of_nat (size (hold_tokens (app w))).

End Turns.

(** The binary64 numbers nearest to 0.1 and to 60.1, and the next one
    after the latter. *)
Definition reading_0_1 : pyfloat :=
  SpecFloat.S754_finite false 7205759403792794 (-56).
Definition reading_60_1 : pyfloat :=
  SpecFloat.S754_finite false 8458323050155213 (-47).
Definition reading_after_60_1 : pyfloat :=
  SpecFloat.S754_finite false 8458323050155214 (-47).

(** Alice's token, issued at clock reading 0.1 into an empty store. *)
Definition alice_issued_late : LoginToken * gmap string LoginToken :=
  generate_for_user TOKEN_EXPIRE_TIME reading_0_1 reading_0_1 "0a1b" alice ∅.

(** The local account of the sample runs. *)
Definition sample_pwd : PwdUser := mkPwdUser 1000 "alice" "Alice A.".

(** A directory that knows Bob and fails on everybody else. *)
Definition sample_directory : AccountsService :=
  Some (λ uid, if bool_decide (uid = 1001)
               then Some (Accounts.mkUser 1001 "bob" "Bob B." false)
               else None).

(** A short life of the daemon: a client holds, the reconciliation source
    fires, the local user asks for a token, the client lets go, the
    reconciliation source fires again. *)
Definition sample_run : list turn :=
  [TurnHold 5%positive ":1.42"; TurnTimeout 2%positive;
   TurnGetLoginToken sample_directory 0 0 "0a1b" 1000;
   TurnRelease ":1.42"; TurnTimeout 2%positive].

Definition sample_after_run : World bool :=
  run_turns (Some sample_pwd) sample_run sample_world.

(** The sample daemon with the stop timer armed and a client holding. *)
Definition sample_armed_with_client : World bool :=
  hold_for_client 5%positive ":1.42" (auto_stop_timeout_cb sample_world).1.

(** * Properties *)

(** ** Strings *)

Section StringFacts.

Lemma contains_app c s1 s2 :
  PyStr.contains c (s1 +:+ s2) = PyStr.contains c s1 || PyStr.contains c s2.
Proof.
  induction s1 as [|d s1 IH]; simpl; [done|].
  destruct (Ascii.eqb c d); [done|]. apply IH.
Qed.

Lemma prefix_SEP_cons c s :
  String.prefix SEP (String c s) = Ascii.eqb colon c.
Proof.
  unfold SEP, colon. cbn [String.prefix].
  destruct (ascii_dec ":" c) as [<-|Hne].
  - rewrite Ascii.eqb_refl. by destruct s.
  - symmetry. by apply Ascii.eqb_neq.
Qed.

Lemma find_sep_None k :
  PyStr.find_sep SEP k = None ↔ PyStr.contains colon k = false.
Proof.
  induction k as [|c k IH].
  - done.
  - cbn [PyStr.find_sep PyStr.contains]. rewrite prefix_SEP_cons.
    destruct (Ascii.eqb colon c); [done|].
    destruct (PyStr.find_sep SEP k) as [[h t]|].
    + split; [done|]. intros Hc. apply IH in Hc. done.
    + split; [|done]. intros _. by apply IH.
Qed.

Lemma find_sep_app uid rest :
  PyStr.contains colon uid = false →
  PyStr.find_sep SEP (uid +:+ SEP +:+ rest) = Some (uid, rest).
Proof.
  induction uid as [|c uid IH]; intros Hc.
  - change (EmptyString +:+ SEP +:+ rest) with (String colon rest).
    cbn [PyStr.find_sep]. rewrite prefix_SEP_cons, Ascii.eqb_refl. done.
  - cbn [PyStr.contains] in Hc.
    change (String c uid +:+ SEP +:+ rest)
      with (String c (uid +:+ SEP +:+ rest)).
    cbn [PyStr.find_sep]. rewrite prefix_SEP_cons.
    destruct (Ascii.eqb colon c); [done|].
    by rewrite IH.
Qed.

Lemma partition_key uid hex :
  PyStr.contains colon uid = false →
  PyStr.partition SEP (generate_token_key hex uid) = (uid, SEP, hex).
Proof.
  intros Hc. unfold PyStr.partition, generate_token_key. cbn [PyStr.join].
  by rewrite find_sep_app.
Qed.

Lemma partition_no_colon k :
  PyStr.contains colon k = false →
  PyStr.partition SEP k = (k, EmptyString, EmptyString).
Proof.
  intros Hc. unfold PyStr.partition.
  by rewrite (proj2 (find_sep_None k) Hc).
Qed.

Lemma key_contains_colon hex uid :
  PyStr.contains colon (generate_token_key hex uid) = true.
Proof.
  unfold generate_token_key. cbn [PyStr.join].
  rewrite contains_app. apply orb_true_iff. right. done.
Qed.

Lemma pretty_N_char_no_colon x : pretty_N_char x ≠ colon.
Proof. unfold pretty_N_char, colon. by repeat case_match. Qed.

Lemma pretty_N_go_no_colon x s :
  PyStr.contains colon s = false →
  PyStr.contains colon (pretty_N_go x s) = false.
Proof.
  revert s. induction (N.lt_wf_0 x) as [x _ IH]; intros s Hs.
  assert (x = 0 ∨ 0 < x)%N as [->|Hx] by lia.
  - by rewrite pretty_N_go_0.
  - rewrite pretty_N_go_step by done. apply IH.
    + by apply N.div_lt.
    + cbn [PyStr.contains].
      destruct (Ascii.eqb colon _) eqn:E; [|done].
      apply Ascii.eqb_eq in E. symmetry in E.
      by apply pretty_N_char_no_colon in E.
Qed.

Lemma pretty_N_no_colon (x : N) : PyStr.contains colon (pretty x) = false.
Proof.
  unfold pretty, pretty_N. case_decide; [done|].
  by apply pretty_N_go_no_colon.
Qed.

Lemma str_no_colon n : PyStr.contains colon (str n) = false.
Proof.
  unfold str, pretty, pretty_Z. destruct n as [|p|p].
  - done.
  - apply pretty_N_no_colon.
  - rewrite contains_app. apply orb_false_iff. split; [done|].
    apply pretty_N_no_colon.
Qed.

Lemma str_inj n m : str n = str m → n = m.
Proof. apply pretty_Z_inj. Qed.

End StringFacts.

(** ** Floats *)

Section FloatFacts.

(** Decides every comparison of exponents and mantissas in the goal. *)
Local Ltac cases_compare :=
  repeat (cbn [PyFloat.is_nan SpecFloat.SFcompare CompOpp];
          match goal with
          | |- context [Z.compare ?a ?b] => destruct (Z.compare_spec a b)
          | |- context [PosDef.Pos.compare_cont Eq ?a ?b] =>
              change (PosDef.Pos.compare_cont Eq a b) with (Pos.compare a b);
              destruct (Pos.compare_spec a b)
          end).

Lemma ltb_irrefl x : PyFloat.ltb x x = false.
Proof.
  unfold PyFloat.ltb, SpecFloat.SFltb.
  destruct x as [[]|[]| |[] m e]; cbn; try done;
    rewrite Z.compare_refl, Pos.compare_cont_refl; done.
Qed.

(** A reading is not after the later of two readings exactly when it is
    after neither. *)
Lemma not_before_later e t1 t2 :
  PyFloat.ltb e (PyFloat.later t1 t2) = false
  ↔ PyFloat.ltb e t1 = false ∧ PyFloat.ltb e t2 = false.
Proof.
  unfold PyFloat.later, PyFloat.ltb, SpecFloat.SFltb.
  destruct t1 as [[]|[]| |[] m1 e1], t2 as [[]|[]| |[] m2 e2];
    cbn [PyFloat.is_nan SpecFloat.SFcompare];
    destruct e as [[]|[]| |[] m e]; cbn [SpecFloat.SFcompare];
    cases_compare; cbn; intuition (try discriminate; try lia).

Qed.

End FloatFacts.

(** ** The login-token store *)

Section TokenFacts.
Variable T : Z.

Local Abbreviation store := (gmap string LoginToken).

Lemma key_prefix_generated hex n :
  key_prefix (generate_token_key hex (str n)) = str n.
Proof. unfold key_prefix. by rewrite partition_key by apply str_no_colon. Qed.

Lemma generate_token_key_inj hex1 hex2 n :
  generate_token_key hex1 (str n) = generate_token_key hex2 (str n) →
  hex1 = hex2.
Proof.
  intros E. apply (f_equal (PyStr.partition SEP)) in E.
  rewrite !partition_key in E by apply str_no_colon. congruence.
Qed.

Lemma revoke_lookup_Some now (st : store) uid tok :
  revoke_expired_tokens now st !! uid = Some tok ↔
  st !! uid = Some tok ∧ is_expired now tok = false.
Proof. unfold revoke_expired_tokens. by rewrite map_lookup_filter_Some. Qed.

Lemma revoke_lookup_None now (st : store) uid :
  st !! uid = None → revoke_expired_tokens now st !! uid = None.
Proof.
  intros E. unfold revoke_expired_tokens.
  apply map_lookup_filter_None. by left.
Qed.

Lemma pop_raw_unfold k (st : store) :
  __pop_login_token k st =
  match st !! key_prefix k with
  | Some tok =>
      if bool_decide (key tok = k)
      then (Some tok, delete (key_prefix k) st) else (None, st)
  | None => (None, st)
  end.
Proof.
  unfold __pop_login_token, key_prefix.
  by destruct (PyStr.partition SEP k) as [[uid sep] rest].
Qed.

Lemma pop_raw_not_redeemable k (st : store) :
  not_redeemable k st → __pop_login_token k st = (None, st).
Proof.
  intros H. rewrite pop_raw_unfold.
  destruct (st !! key_prefix k) as [tok|] eqn:E; [|done].
  rewrite bool_decide_eq_false_2; [done|]. by apply H.
Qed.

Lemma not_redeemable_revoke now k (st : store) :
  not_redeemable k st → not_redeemable k (revoke_expired_tokens now st).
Proof. intros H tok [E _]%revoke_lookup_Some. by apply H. Qed.

Lemma pop_not_redeemable now k (st : store) :
  not_redeemable k st →
  pop_login_token now k st = (None, revoke_expired_tokens now st).
Proof.
  intros H. unfold pop_login_token.
  by apply pop_raw_not_redeemable, not_redeemable_revoke.
Qed.

Lemma pop_raw_lookup k (st : store) uid tok :
  (__pop_login_token k st).2 !! uid = Some tok → st !! uid = Some tok.
Proof.
  rewrite pop_raw_unfold.
  destruct (st !! key_prefix k) as [tok'|]; [|done].
  case_bool_decide; [|done].
  cbn. by intros [_ ?]%lookup_delete_Some.
Qed.

Lemma not_redeemable_foreign uid k o (st : store) :
  key_prefix k = uid → foreign_op uid o →
  not_redeemable k st → not_redeemable k (run_token_op T o st).
Proof.
  intros Hk Ho H tok. destruct o as [tp ti hex u|t k']; cbn in *.
  - rewrite Hk. rewrite lookup_insert_ne by done.
    intros [E _]%revoke_lookup_Some. apply H. by rewrite Hk.
  - intros E%pop_raw_lookup.
    apply revoke_lookup_Some in E as [E _]. by apply H.
Qed.

Lemma not_redeemable_foreign_ops uid k ops (st : store) :
  key_prefix k = uid → Forall (foreign_op uid) ops →
  not_redeemable k st → not_redeemable k (run_token_ops T ops st).
Proof.
  intros Hk Hops. revert st.
  induction Hops as [|o ops Ho _ IH]; intros st H; [done|].
  cbn. apply IH. by eapply not_redeemable_foreign.
Qed.

Lemma wf_store_empty : wf_store ∅.
Proof. intros uid tok E. by rewrite lookup_empty in E. Qed.

Lemma wf_store_revoke now (st : store) :
  wf_store st → wf_store (revoke_expired_tokens now st).
Proof. intros H uid tok [E _]%revoke_lookup_Some. by apply H. Qed.

Lemma wf_store_add now hex u (st : store) :
  wf_store st → wf_store (add_login_token T now hex u st).2.
Proof.
  intros H uid tok. cbn.
  destruct (decide (str (user_id u) = uid)) as [<-|Hne].
  - rewrite lookup_insert_eq. intros [= <-]. split; [done|]. by exists hex.
  - rewrite lookup_insert_ne by done. apply H.
Qed.

Lemma wf_store_pop_raw k (st : store) :
  wf_store st → wf_store (__pop_login_token k st).2.
Proof. intros H uid tok E%pop_raw_lookup. by apply H. Qed.

Lemma wf_store_step o (st : store) :
  wf_store st → wf_store (run_token_op T o st).
Proof.
  intros H. destruct o; cbn [run_token_op].
  - by apply wf_store_add, wf_store_revoke.
  - by apply wf_store_pop_raw, wf_store_revoke.
Qed.

Lemma reachable_wf (st : store) : reachable T st → wf_store st.
Proof.
  induction 1; [apply wf_store_empty | by apply wf_store_step].
Qed.

Lemma wf_key_prefix (st : store) uid tok :
  wf_store st → st !! uid = Some tok → key_prefix (key tok) = uid.
Proof.
  intros H E. destruct (H _ _ E) as [-> [hex ->]].
  apply key_prefix_generated.
Qed.

Lemma pop_raw_stored (st : store) uid tok :
  wf_store st → st !! uid = Some tok →
  __pop_login_token (key tok) st = (Some tok, delete uid st).
Proof.
  intros H E. rewrite pop_raw_unfold, (wf_key_prefix _ _ _ H E), E.
  by rewrite bool_decide_eq_true_2.
Qed.

End TokenFacts.

Section TokenClaims.
Variable T : Z.

Local Abbreviation store := (gmap string LoginToken).

(** C3 — at most one live token per user.  Once [generate_for_user] has
    been called a second time for the user [u] (with a suffix different
    from the first one, as fresh [uuid4] values are), the first key is dead:
    whatever happened between the two calls, and whatever redemptions and
    issues for other users follow, [pop_login_token] of the first key
    returns [None] (and only purges). *)
Theorem token_replacement (st : store) u hex1 hex2 tp1 ti1 tp2 ti2
    ops_between ops_after now :
  hex1 ≠ hex2 →
  Forall (foreign_op (str (user_id u))) ops_after →
  let first := generate_for_user T tp1 ti1 hex1 u st in
  let s2 := run_token_ops T ops_between first.2 in
  let second := generate_for_user T tp2 ti2 hex2 u s2 in
  let s4 := run_token_ops T ops_after second.2 in
  second.2 !! str (user_id u) = Some second.1 ∧
  pop_login_token now (key first.1) s4
    = (None, revoke_expired_tokens now s4).
Proof.
  intros Hhex Hops first s2 second s4. split.
  { subst second. cbn. apply lookup_insert_eq. }
  apply pop_not_redeemable.
  assert (Hk : key_prefix (key first.1) = str (user_id u))
    by apply key_prefix_generated.
  subst s4. apply (not_redeemable_foreign_ops T _ _ _ _ Hk Hops).
  intros tok. rewrite Hk. subst second. cbn.
  rewrite lookup_insert_eq. intros [= <-]. cbn.
  intros E%generate_token_key_inj. by apply Hhex.
Qed.

(** C4 — tokens are single-use.  Popping the key of a stored, unexpired
    token returns that token and removes it from the store; any later pop of
    the same key, with no issue for that user in between, returns [None]. *)
Theorem token_single_use (st : store) uid tok now ops now' :
  wf_store st →
  st !! uid = Some tok →
  is_expired now tok = false →
  Forall (foreign_op uid) ops →
  let first := pop_login_token now (key tok) st in
  first.1 = Some tok ∧
  first.2 = delete uid (revoke_expired_tokens now st) ∧
  first.2 !! uid = None ∧
  (pop_login_token now' (key tok) (run_token_ops T ops first.2)).1 = None.
Proof.
  intros Hwf E Hexp Hops first.
  assert (Hr : revoke_expired_tokens now st !! uid = Some tok)
    by by apply revoke_lookup_Some.
  assert (Hf : first = (Some tok, delete uid (revoke_expired_tokens now st))).
  { subst first. unfold pop_login_token.
    apply pop_raw_stored; [by apply wf_store_revoke | done]. }
  rewrite Hf. cbn [fst snd]. split_and!; [done|done|apply lookup_delete_eq|].
  assert (Hk : key_prefix (key tok) = uid) by by eapply wf_key_prefix.
  rewrite pop_not_redeemable; [done|].
  apply (not_redeemable_foreign_ops T uid); [done|done|].
  intros tok'. rewrite Hk, lookup_delete_eq. done.
Qed.

(** C5 — only the exact key redeems.  A token comes back only if it is
    stored under the prefix of the supplied key and its key equals the
    supplied key, and then exactly that entry is deleted; if the token filed
    under the prefix has a different key, the result is [None] and the store
    is the purged store, nothing else removed or changed. *)
Theorem pop_exact_key_only (st : store) now k :
  (∀ tok st', pop_login_token now k st = (Some tok, st') →
     st !! key_prefix k = Some tok ∧ key tok = k ∧
     st' = delete (key_prefix k) (revoke_expired_tokens now st)) ∧
  (∀ tok, st !! key_prefix k = Some tok → key tok ≠ k →
     pop_login_token now k st = (None, revoke_expired_tokens now st)).
Proof.
  split.
  - intros tok st'. unfold pop_login_token. rewrite pop_raw_unfold.
    destruct (revoke_expired_tokens now st !! key_prefix k) as [tok'|] eqn:E;
      [|done].
    case_bool_decide as Hk; [|done]. intros [= -> <-].
    apply revoke_lookup_Some in E as [E _]. done.
  - intros tok E Hne. apply pop_not_redeemable.
    intros tok'. rewrite E. by intros [= <-].
Qed.

(** C6 (as the code has it) — a token issued at clock reading [t0] with
    lifetime [T] carries as expiry the float sum of [t0] and [T], and
    [pop_login_token] at reading [t] returns it exactly when that expiry is
    not less than [t]: at every reading up to and including the expiry the
    token comes back, at every later reading it is absent. *)
Theorem token_expiry (st : store) u hex tp t0 t :
  let issued := generate_for_user T tp t0 hex u st in
  expires issued.1 = PyFloat.add t0 (PyFloat.of_int T) ∧
  (pop_login_token t (key issued.1) issued.2).1
    = (if PyFloat.ltb (PyFloat.add t0 (PyFloat.of_int T)) t
       then None else Some issued.1) ∧
  (pop_login_token (expires issued.1) (key issued.1) issued.2).1
    = Some issued.1.
Proof.
  intros issued.
  assert (Hk : key_prefix (key issued.1) = str (user_id u))
    by apply key_prefix_generated.
  assert (Hl : issued.2 !! str (user_id u) = Some issued.1)
    by apply lookup_insert_eq.
  assert (He : expires issued.1 = PyFloat.add t0 (PyFloat.of_int T)) by done.
  clearbody issued.
  assert (Hpop : ∀ now,
            (pop_login_token now (key issued.1) issued.2).1
            = if is_expired now issued.1 then None else Some issued.1).
  { intros now. unfold pop_login_token. rewrite pop_raw_unfold, Hk.
    destruct (is_expired now issued.1) eqn:Hx.
    - assert (Hr : revoke_expired_tokens now issued.2 !! str (user_id u)
                   = None).
      { destruct (revoke_expired_tokens now issued.2 !! str (user_id u))
          as [tok|] eqn:E; [|done].
        apply revoke_lookup_Some in E as [E Hx']. rewrite Hl in E.
        injection E as <-. congruence. }
      by rewrite Hr.
    - assert (Hr : revoke_expired_tokens now issued.2 !! str (user_id u)
                   = Some issued.1) by by apply revoke_lookup_Some.
      rewrite Hr. by rewrite bool_decide_eq_true_2. }
  split_and!.
  - done.
  - rewrite Hpop. unfold is_expired. by rewrite He.
  - rewrite Hpop. unfold is_expired. by rewrite ltb_irrefl.
Qed.

(** C10 — redemption is total and harmless on junk keys.  For a key with no
    colon (the empty string included) or whose prefix is not a stored user
    id, [pop_login_token] returns [None], the reply of
    [__on_check_login_token] is the empty dictionary, and the store
    afterwards is the purged store, so every unexpired token is still
    there. *)
Theorem pop_junk_key (a : Application) now k :
  wf_store (login_tokens a) →
  PyStr.contains colon k = false ∨ login_tokens a !! key_prefix k = None →
  pop_login_token now k (login_tokens a)
    = (None, revoke_expired_tokens now (login_tokens a)) ∧
  (on_check_login_token now k a).1 = ∅ ∧
  (∀ uid tok, login_tokens a !! uid = Some tok →
     is_expired now tok = false →
     login_tokens (on_check_login_token now k a).2 !! uid = Some tok).
Proof.
  intros Hwf Hk.
  assert (Hpop : pop_login_token now k (login_tokens a)
                 = (None, revoke_expired_tokens now (login_tokens a))).
  { apply pop_not_redeemable. intros tok E.
    destruct Hk as [Hk|Hk]; [|congruence].
    destruct (Hwf _ _ E) as [_ [hex Hkey]]. intros <-.
    rewrite Hkey, key_contains_colon in Hk. done. }
  split; [done|].
  unfold on_check_login_token, App.check_login_token. cbn.
  rewrite Hpop. cbn. split; [done|].
  intros uid tok E Hx. by apply revoke_lookup_Some.
Qed.

End TokenClaims.

(** ** Checks on sample data *)

Example str_1000 : str 1000 = "1000".
Proof. reflexivity. Qed.

Example alice_key : key alice_issued.1 = "1000:0a1b".
Proof. reflexivity. Qed.

Example partition_alice_key :
  PyStr.partition SEP "1000:0a1b" = ("1000", ":", "0a1b").
Proof. reflexivity. Qed.

Example partition_two_colons :
  PyStr.partition SEP "1000:0a:1b" = ("1000", ":", "0a:1b").
Proof. reflexivity. Qed.

Example partition_no_sep : PyStr.partition SEP "1000" = ("1000", "", "").
Proof. reflexivity. Qed.

Example pop_alice_at_59 :
  (pop_login_token 59 "1000:0a1b" alice_issued.2).1 = Some alice_issued.1.
Proof. vm_compute. reflexivity. Qed.

Example pop_alice_at_61 :
  (pop_login_token 61 "1000:0a1b" alice_issued.2).1 = None.
Proof. vm_compute. reflexivity. Qed.

(** C6, counterexample to the claim as worded: exactly [TOKEN_EXPIRE_TIME]
    after it was issued, the token is still handed out, although the elapsed
    time is greater than or equal to the lifetime. *)
Lemma token_expiry_boundary_counterexample :
  ¬ (TOKEN_EXPIRE_TIME ≤ 60 - 0 →
     (pop_login_token 60 (key alice_issued.1) alice_issued.2).1 = None).
Proof.
  intros H. assert (Hge : TOKEN_EXPIRE_TIME ≤ 60 - 0) by (vm_compute; discriminate).
  specialize (H Hge). vm_compute in H. discriminate H.
Qed.

Lemma token_replacement_witness :
  "0a1b" ≠ "77ff" ∧
  Forall (foreign_op (str (user_id alice)))
    [PopToken 7 "1000:77ff"; GenerateForUser 8 8 "c0de" bob] ∧
  pop_login_token 9 "1000:0a1b"
    (run_token_ops 60 [PopToken 7 "1000:77ff"; GenerateForUser 8 8 "c0de" bob]
       (generate_for_user 60 5 5 "77ff" alice
          (run_token_ops 60 [PopToken 2 "1001:zz"]
             (generate_for_user 60 0 0 "0a1b" alice ∅).2)).2)
  = (None,
     revoke_expired_tokens 9
       (run_token_ops 60
          [PopToken 7 "1000:77ff"; GenerateForUser 8 8 "c0de" bob]
          (generate_for_user 60 5 5 "77ff" alice
             (run_token_ops 60 [PopToken 2 "1001:zz"]
                (generate_for_user 60 0 0 "0a1b" alice ∅).2)).2)).
Proof.
  assert (H1 : "0a1b" ≠ "77ff") by discriminate.
  assert (H2 : Forall (foreign_op (str (user_id alice)))
                 [PopToken 7 "1000:77ff"; GenerateForUser 8 8 "c0de" bob]).
  { repeat constructor. intros E. vm_compute in E. discriminate E. }
  split; [exact H1|]. split; [exact H2|].
  exact (proj2 (token_replacement 60 ∅ alice "0a1b" "77ff" 0 0 5 5
                  [PopToken 2 "1001:zz"] _ 9 H1 H2)).
Defined.

Lemma alice_issued_wf : wf_store alice_issued.2.
Proof.
  exact (wf_store_step TOKEN_EXPIRE_TIME
           (GenerateForUser 0 0 "0a1b" alice) ∅ wf_store_empty).
Qed.

Lemma token_single_use_witness :
  wf_store alice_issued.2 ∧
  alice_issued.2 !! "1000" = Some alice_issued.1 ∧
  is_expired 30 alice_issued.1 = false ∧
  Forall (foreign_op "1000")
    [GenerateForUser 31 31 "c0de" bob; PopToken 32 "1000:0a1b"] ∧
  (pop_login_token 30 (key alice_issued.1) alice_issued.2).1
    = Some alice_issued.1 ∧
  (pop_login_token 33 (key alice_issued.1)
     (run_token_ops 60
        [GenerateForUser 31 31 "c0de" bob; PopToken 32 "1000:0a1b"]
        (pop_login_token 30 (key alice_issued.1) alice_issued.2).2)).1 = None.
Proof.
  assert (H2 : alice_issued.2 !! "1000" = Some alice_issued.1)
    by (vm_compute; reflexivity).
  assert (H3 : is_expired 30 alice_issued.1 = false)
    by (vm_compute; reflexivity).
  assert (H4 : Forall (foreign_op "1000")
                 [GenerateForUser 31 31 "c0de" bob; PopToken 32 "1000:0a1b"]).
  { repeat constructor. intros E. vm_compute in E. discriminate E. }
  split; [exact alice_issued_wf|]. split; [exact H2|].
  split; [exact H3|]. split; [exact H4|].
  destruct (token_single_use 60 alice_issued.2 "1000" alice_issued.1 30
              _ 33 alice_issued_wf H2 H3 H4) as (R1 & _ & _ & R4).
  split; [exact R1 | exact R4].
Defined.

Lemma pop_exact_key_only_witness :
  alice_issued.2 !! key_prefix "1000:ffff" = Some alice_issued.1 ∧
  key alice_issued.1 ≠ "1000:ffff" ∧
  pop_login_token 10 "1000:ffff" alice_issued.2
    = (None, revoke_expired_tokens 10 alice_issued.2).
Proof.
  assert (H1 : alice_issued.2 !! key_prefix "1000:ffff" = Some alice_issued.1)
    by (vm_compute; reflexivity).
  assert (H2 : key alice_issued.1 ≠ "1000:ffff").
  { intros E. vm_compute in E. discriminate E. }
  split; [exact H1|]. split; [exact H2|].
  exact (proj2 (pop_exact_key_only alice_issued.2 10 "1000:ffff")
           alice_issued.1 H1 H2).
Defined.

Lemma pop_junk_key_witness :
  wf_store (login_tokens (App.set_login_tokens alice_issued.2 App.init)) ∧
  (PyStr.contains colon "" = false ∨
   login_tokens (App.set_login_tokens alice_issued.2 App.init)
     !! key_prefix "" = None) ∧
  pop_login_token 10 "" alice_issued.2
    = (None, revoke_expired_tokens 10 alice_issued.2) ∧
  (on_check_login_token 10 ""
     (App.set_login_tokens alice_issued.2 App.init)).1 = ∅.
Proof.
  assert (H2 : PyStr.contains colon "" = false ∨
               login_tokens (App.set_login_tokens alice_issued.2 App.init)
                 !! key_prefix "" = None)
    by (left; reflexivity).
  split; [exact alice_issued_wf|]. split; [exact H2|].
  destruct (pop_junk_key (App.set_login_tokens alice_issued.2 App.init)
              10 "" alice_issued_wf H2) as (R1 & R2 & _).
  split; [exact R1 | exact R2].
Defined.

Example junk_keys_on_sample :
  (pop_login_token 10 "1000" alice_issued.2).1 = None ∧
  (pop_login_token 10 ":" alice_issued.2).1 = None ∧
  (pop_login_token 10 "1000:" alice_issued.2).1 = None ∧
  (pop_login_token 10 "4242:0a1b" alice_issued.2).1 = None.
Proof. vm_compute. done. Qed.

(** ** The hold registry *)

Section RegistryFacts.
Context {SM : Type} {HSM : ServiceManager SM}.

Local Abbreviation world := (World SM).

Lemma hold_for_client_dom c n (w : world) :
  dom (hold_clients (pub (hold_for_client c n w)))
  = {[n]} ∪ dom (hold_clients (pub w)).
Proof.
  unfold hold_for_client. case_bool_decide as Hin.
  - symmetry. apply subseteq_union_1_L. by apply singleton_subseteq_l.
  - cbn. apply dom_insert_L.
Qed.

Lemma release_for_client_dom n (w : world) :
  dom (hold_clients (pub (release_for_client n w)))
  = dom (hold_clients (pub w)) ∖ {[n]}.
Proof.
  unfold release_for_client.
  destruct (hold_clients (pub w) !! n) as [id|] eqn:E.
  - cbn. apply dom_delete_L.
  - apply not_elem_of_dom in E. symmetry.
    apply difference_disjoint_L. by apply disjoint_singleton_r.
Qed.

Lemma run_registry_op_dom o (w : world) :
  dom (hold_clients (pub (run_registry_op o w)))
  = held_after o (dom (hold_clients (pub w))).
Proof.
  destruct o; cbn [run_registry_op held_after on_hold_client_vanished].
  - apply hold_for_client_dom.
  - apply release_for_client_dom.
  - apply release_for_client_dom.
Qed.

Lemma run_registry_ops_dom ops (w : world) :
  dom (hold_clients (pub (run_registry_ops ops w)))
  = held_clients ops (dom (hold_clients (pub w))).
Proof.
  revert w. induction ops as [|o ops IH]; intros w; [done|].
  change (run_registry_ops (o :: ops) w)
    with (run_registry_ops ops (run_registry_op o w)).
  change (held_clients (o :: ops) (dom (hold_clients (pub w))))
    with (held_clients ops (held_after o (dom (hold_clients (pub w))))).
  by rewrite IH, run_registry_op_dom.
Qed.

(** The registry calls leave the timers, GLib's sources, the service
    manager and the application alone. *)
Lemma run_registry_op_frame o (w : world) :
  let w' := run_registry_op o w in
  app w' = app w ∧ main_loop w' = main_loop w ∧
  stop_kolibri_timeout_source (pub w') = stop_kolibri_timeout_source (pub w) ∧
  sm_calls (pub w') = sm_calls (pub w) ∧
  service_manager (pub w') = service_manager (pub w).
Proof.
  destruct o; cbn;
    unfold on_hold_client_vanished, hold_for_client, release_for_client;
    repeat case_bool_decide; repeat case_match; done.
Qed.

Lemma run_registry_ops_frame ops (w : world) :
  let w' := run_registry_ops ops w in
  app w' = app w ∧ main_loop w' = main_loop w ∧
  stop_kolibri_timeout_source (pub w') = stop_kolibri_timeout_source (pub w) ∧
  sm_calls (pub w') = sm_calls (pub w) ∧
  service_manager (pub w') = service_manager (pub w).
Proof.
  revert w. induction ops as [|o ops IH]; intros w; [done|].
  change (run_registry_ops (o :: ops) w)
    with (run_registry_ops ops (run_registry_op o w)).
  cbv zeta in *.
  destruct (IH (run_registry_op o w)) as (-> & -> & -> & -> & ->).
  apply run_registry_op_frame.
Qed.

(** C7 — the hold count is the number of distinct held clients.  After any
    sequence of holds, releases and disconnects, the registered names are
    exactly the clients the calls leave held, and [clients_count] is their
    number; holding a held client again changes nothing (whatever the
    connection), and releasing a client that is not held changes nothing. *)
Theorem registry_count ops (w : world) self sm c c' n :
  dom (hold_clients (pub (run_registry_ops ops w)))
    = held_clients ops (dom (hold_clients (pub w))) ∧
  clients_count (pub (run_registry_ops ops w))
    = size (held_clients ops (dom (hold_clients (pub w)))) ∧
  clients_count (pub (run_registry_ops ops (world_init self sm)))
    = size (held_clients ops ∅) ∧
  hold_for_client c' n (hold_for_client c n w) = hold_for_client c n w ∧
  (n ∉ dom (hold_clients (pub w)) → release_for_client n w = w) ∧
  (n ∉ dom (hold_clients (pub w)) → on_hold_client_vanished c n w = w).
Proof.
  split_and!.
  - apply run_registry_ops_dom.
  - unfold clients_count. by rewrite <-size_dom, run_registry_ops_dom.
  - unfold clients_count. rewrite <-size_dom, run_registry_ops_dom.
    cbn. by rewrite dom_empty_L.
  - unfold hold_for_client at 1.
    rewrite bool_decide_eq_true_2; [done|].
    rewrite hold_for_client_dom. set_solver.
  - intros Hn%not_elem_of_dom. unfold release_for_client. by rewrite Hn.
  - intros Hn%not_elem_of_dom.
    unfold on_hold_client_vanished, release_for_client. by rewrite Hn.
Qed.

End RegistryFacts.

(** ** Hold tokens *)

Section HoldTokenFacts.

Lemma hold_with_token_elem t a : t ∈ hold_tokens (App.hold_with_token t a).
Proof.
  unfold App.hold_with_token. case_bool_decide as Hin; cbn.
  - set_solver.
  - by destruct (decide (t ∈ hold_tokens a)).
Qed.

Lemma release_with_token_elem t a :
  t ∉ hold_tokens (App.release_with_token t a).
Proof.
  unfold App.release_with_token. case_bool_decide as Hin; cbn.
  - apply not_elem_of_difference. right. by apply elem_of_singleton.
  - done.
Qed.

Lemma hold_with_token_gap t a :
  App.hold_gap (App.hold_with_token t a) = App.hold_gap a.
Proof.
  unfold App.hold_with_token. case_bool_decide as Hin; [|done].
  unfold App.hold_gap, use_count. cbn.
  rewrite size_union by set_solver. rewrite size_singleton. lia.
Qed.

Lemma release_with_token_gap t a :
  App.hold_gap (App.release_with_token t a) = App.hold_gap a.
Proof.
  unfold App.release_with_token. case_bool_decide as Hin; [|done].
  unfold App.hold_gap, use_count. cbn.
  assert (Hs : size (hold_tokens a)
               = S (size (hold_tokens a ∖ {[t]}))).
  { rewrite (union_difference_singleton_L t (hold_tokens a) Hin) at 1.
    rewrite size_union by (by apply disjoint_difference_r1).
    by rewrite size_singleton. }
  rewrite Hs. lia.
Qed.

Lemma run_hold_op_gap o a : App.hold_gap (App.run_hold_op o a) = App.hold_gap a.
Proof.
  destruct o; cbn [App.run_hold_op].
  - apply hold_with_token_gap.
  - apply release_with_token_gap.
  - unfold App.hold_gap, use_count. cbn. lia.
Qed.

Lemma run_hold_ops_gap ops a : App.hold_gap (App.run_hold_ops ops a) = App.hold_gap a.
Proof.
  revert a. induction ops as [|o ops IH]; intros a; [done|].
  change (App.run_hold_ops (o :: ops) a)
    with (App.run_hold_ops ops (App.run_hold_op o a)).
  rewrite IH. apply run_hold_op_gap.
Qed.

(** C8 — the process hold count follows the token set.  Starting from the
    freshly built application, after any sequence of [hold_with_token],
    [release_with_token] and [reset_inactivity_timeout] calls, the number of
    [hold()] calls minus the number of [release()] calls equals the number
    of tokens in the set (from any state, the difference between the two
    never changes); asserting a token that is present and retracting one
    that is absent leave the whole application state as it was. *)
Theorem hold_tokens_match_use_count ops a t :
  use_count (App.run_hold_ops ops App.init)
    = Z.of_nat (size (hold_tokens (App.run_hold_ops ops App.init))) ∧
  use_count (App.run_hold_ops ops a)
    - Z.of_nat (size (hold_tokens (App.run_hold_ops ops a)))
    = use_count a - Z.of_nat (size (hold_tokens a)) ∧
  App.hold_with_token t (App.hold_with_token t a) = App.hold_with_token t a ∧
  App.release_with_token t (App.release_with_token t a)
    = App.release_with_token t a ∧
  (t ∈ hold_tokens a → App.hold_with_token t a = a) ∧
  (t ∉ hold_tokens a → App.release_with_token t a = a).
Proof.
  split_and!.
  - pose proof (run_hold_ops_gap ops App.init) as H.
    unfold App.hold_gap in H. change (use_count App.init) with 0 in H.
    change (hold_tokens App.init) with (∅ : gset Token) in H.
    rewrite size_empty in H. lia.
  - apply (run_hold_ops_gap ops a).
  - unfold App.hold_with_token at 1.
    rewrite bool_decide_eq_false_2; [done|].
    intros Hn. apply Hn. apply hold_with_token_elem.
  - unfold App.release_with_token at 1.
    rewrite bool_decide_eq_false_2; [done|].
    apply release_with_token_elem.
  - intros Hin. unfold App.hold_with_token.
    rewrite bool_decide_eq_false_2; [done|]. by intros Hn.
  - intros Hn. unfold App.release_with_token.
    by rewrite bool_decide_eq_false_2.
Qed.

End HoldTokenFacts.

(** ** Reconciliation and the stop timer *)

Section ControllerFacts.
Context {SM : Type} {HSM : ServiceManager SM}.

Local Abbreviation world := (World SM).

Lemma tick_fields (w : world) :
  let w' := (auto_stop_timeout_cb w).1 in
  sm_calls (pub w') = CallCleanup :: sm_calls (pub w) ∧
  (stop_kolibri_timeout_source (pub w'), main_loop w')
    = (if bool_decide (clients_count (pub w) = 0%nat)
          && sm_is_running (sm_cleanup (service_manager (pub w)))
       then
         match stop_kolibri_timeout_source (pub w) with
         | Some id => (Some id, main_loop w)
         | None =>
             (Some (next_id (main_loop w)),
              (pool_alloc
                 (mkTimeoutSource (stop_kolibri_timeout_interval (pub w))
                    StopKolibriCb) (main_loop w)).2)
         end
       else
         match stop_kolibri_timeout_source (pub w) with
         | Some id => (None, pool_free id (main_loop w))
         | None => (None, main_loop w)
         end).
Proof.
  cbv zeta.
  destruct (sm_is_running (sm_cleanup (service_manager (pub w)))) eqn:Er;
    destruct (stop_kolibri_timeout_source (pub w)) as [id|] eqn:Es;
    destruct (bool_decide (size (hold_clients (pub w)) = 0%nat)) eqn:Eb1;
    destruct (bool_decide (0 < size (hold_clients (pub w)))%nat) eqn:Eb2.
  all: unfold auto_stop_timeout_cb, is_running, clients_count,
         begin_stop_kolibri_timeout, cancel_stop_kolibri_timeout.
  all: repeat (cbn; rewrite ?Er, ?Es, ?Eb1, ?Eb2).
  all: done.
Qed.

(** Closes the equivalences left over by the case analysis of the tick. *)
Local Ltac tick_iff Hin Hout :=
  let Hx := fresh "Hx" in
  split; intros Hx;
  first [ exact Hin
        | by destruct (Hout Hx)
        | by (left; lia)
        | by right
        | by destruct Hx as [? [=]]
        | destruct Hx; first [lia | discriminate | done] ].

(** C1 — the reconciliation tick.  [auto_stop_timeout_cb] first calls the
    service manager's cleanup; then, with the running state read after that
    call: if no client holds and the service runs, the stop timer is armed
    (a new GLib source if there was none, the old one kept otherwise), and
    in every other case it is disarmed (its source removed if there was
    one); and the controller's own hold token is asserted when a client
    holds or the service runs, and released otherwise. *)
Theorem reconciliation_tick (w : world) :
  let w' := (auto_stop_timeout_cb w).1 in
  let count := clients_count (pub w) in
  let running := sm_is_running (sm_cleanup (service_manager (pub w))) in
  let idle := bool_decide (count = 0%nat) && running in
  let busy := bool_decide (0 < count)%nat || running in
  (auto_stop_timeout_cb w).2 = SOURCE_CONTINUE ∧
  sm_calls (pub w') = CallCleanup :: sm_calls (pub w) ∧
  service_manager (pub w') = sm_cleanup (service_manager (pub w)) ∧
  hold_clients (pub w') = hold_clients (pub w) ∧
  (stop_kolibri_timeout_source (pub w'), main_loop w')
    = (if idle then
         match stop_kolibri_timeout_source (pub w) with
         | Some id => (Some id, main_loop w)
         | None =>
             (Some (next_id (main_loop w)),
              (pool_alloc
                 (mkTimeoutSource (stop_kolibri_timeout_interval (pub w))
                    StopKolibriCb) (main_loop w)).2)
         end
       else
         match stop_kolibri_timeout_source (pub w) with
         | Some id => (None, pool_free id (main_loop w))
         | None => (None, main_loop w)
         end) ∧
  (is_Some (stop_kolibri_timeout_source (pub w'))
     ↔ count = 0%nat ∧ running = true) ∧
  app w'
    = (if busy then App.hold_with_token (self_token (pub w)) (app w)
       else App.release_with_token (self_token (pub w)) (app w)) ∧
  (self_token (pub w) ∈ hold_tokens (app w')
     ↔ (0 < count)%nat ∨ running = true).
Proof.
  intros w' count running idle busy.
  subst w' idle busy count running.
  pose proof (hold_with_token_elem (self_token (pub w)) (app w)) as Hin.
  pose proof (release_with_token_elem (self_token (pub w)) (app w)) as Hout.
  destruct (sm_is_running (sm_cleanup (service_manager (pub w)))) eqn:Er;
    destruct (stop_kolibri_timeout_source (pub w)) as [id|] eqn:Es;
    destruct (decide (size (hold_clients (pub w)) = 0%nat)) as [Ec|Ec].
  all: pose proof (bool_decide_decide
                     (size (hold_clients (pub w)) = 0%nat)) as Eb1.
  all: pose proof (bool_decide_decide
                     (0 < size (hold_clients (pub w)))%nat) as Eb2.
  all: destruct (decide (size (hold_clients (pub w)) = 0%nat));
    destruct (decide (0 < size (hold_clients (pub w)))%nat); try lia.
  all: unfold auto_stop_timeout_cb, is_running, clients_count,
         begin_stop_kolibri_timeout, cancel_stop_kolibri_timeout.
  all: repeat (cbn; rewrite ?Er, ?Es, ?Eb1, ?Eb2).
  all: split_and!; try done; tick_iff Hin Hout.
Qed.

Lemma stop_calls_cons_stop (p : PublicDBusInterface SM) :
  stop_calls (call_sm CallStop sm_stop_kolibri p) = S (stop_calls p).
Proof.
  unfold stop_calls.
  change (sm_calls (call_sm CallStop sm_stop_kolibri p))
    with (CallStop :: sm_calls p).
  by rewrite filter_cons_True.
Qed.

Lemma stop_calls_cons_cleanup (p : PublicDBusInterface SM) :
  stop_calls (call_sm CallCleanup sm_cleanup p) = stop_calls p.
Proof.
  unfold stop_calls.
  change (sm_calls (call_sm CallCleanup sm_cleanup p))
    with (CallCleanup :: sm_calls p).
  by rewrite filter_cons_False.
Qed.

Lemma stop_cb_fields (w : world) :
  let w' := (stop_kolibri_timeout_cb w).1 in
  let fire := bool_decide (clients_count (pub w) = 0%nat) in
  (stop_kolibri_timeout_cb w).2 = SOURCE_REMOVE ∧
  stop_kolibri_timeout_source (pub w') = None ∧
  main_loop w' = main_loop w ∧
  hold_clients (pub w') = hold_clients (pub w) ∧
  app w' = app w ∧
  sm_calls (pub w')
    = (if fire then CallStop :: sm_calls (pub w) else sm_calls (pub w)) ∧
  service_manager (pub w')
    = (if fire then sm_stop_kolibri (service_manager (pub w))
       else service_manager (pub w)) ∧
  stop_calls (pub w')
    = (stop_calls (pub w) + if fire then 1 else 0)%nat.
Proof.
  intros w' fire. subst w' fire. unfold stop_kolibri_timeout_cb.
  cbn [fst snd].
  destruct (bool_decide (clients_count (pub w) = 0%nat)).
  - split_and!; try done.
    change (stop_calls (call_sm CallStop sm_stop_kolibri (pub w))
            = (stop_calls (pub w) + 1)%nat).
    rewrite stop_calls_cons_stop. lia.
  - split_and!; done.
Qed.

Lemma dispatch_stop_source (w : world) id src :
  live (main_loop w) !! id = Some src →
  callback src = StopKolibriCb →
  dispatch id w
  = set_main_loop (pool_free id (main_loop w)) (stop_kolibri_timeout_cb w).1.
Proof.
  intros E Hcb. unfold dispatch. rewrite E, Hcb. cbn [run_callback].
  destruct (stop_kolibri_timeout_cb w) as [w' r] eqn:Ecb.
  pose proof (stop_cb_fields w) as (Hr & _ & Hml & _).
  rewrite Ecb in Hr, Hml. cbn in Hr, Hml. subst r. cbn. by rewrite Hml.
Qed.

(** C2 — the stop timer firing.  [stop_kolibri_timeout_cb] tells the
    service manager to stop exactly when no client holds at that moment,
    and then exactly once; either way it clears its handle, answers
    [SOURCE_REMOVE] and registers no new source.  In the scenario: a tick
    with no client and a running service arms the timer; when GLib then
    dispatches that source, after whatever registry calls came in between,
    the handle is cleared, the source is gone, and the number of stop calls
    has gone up by one if the count is still zero and by none otherwise. *)
Theorem stop_timer_fires (w : world) ops :
  (let w' := (stop_kolibri_timeout_cb w).1 in
   let fire := bool_decide (clients_count (pub w) = 0%nat) in
   (stop_kolibri_timeout_cb w).2 = SOURCE_REMOVE ∧
   stop_kolibri_timeout_source (pub w') = None ∧
   main_loop w' = main_loop w ∧
   sm_calls (pub w')
     = (if fire then CallStop :: sm_calls (pub w) else sm_calls (pub w)) ∧
   stop_calls (pub w') = (stop_calls (pub w) + if fire then 1 else 0)%nat) ∧
  (clients_count (pub w) = 0%nat →
   sm_is_running (sm_cleanup (service_manager (pub w))) = true →
   stop_kolibri_timeout_source (pub w) = None →
   let id := next_id (main_loop w) in
   let w1 := (auto_stop_timeout_cb w).1 in
   let w2 := run_registry_ops ops w1 in
   let w3 := dispatch id w2 in
   stop_kolibri_timeout_source (pub w1) = Some id ∧
   stop_kolibri_timeout_source (pub w3) = None ∧
   live (main_loop w3) !! id = None ∧
   stop_calls (pub w3)
     = (stop_calls (pub w)
        + if bool_decide (clients_count (pub w2) = 0%nat) then 1 else 0)%nat).
Proof.
  split.
  { pose proof (stop_cb_fields w) as (? & ? & ? & _ & _ & ? & _ & ?).
    cbv zeta. done. }
  intros Hc Hrun Hsrc id w1 w2 w3.
  pose proof (tick_fields w) as (Hcalls & Htimer).
  cbv zeta in Hcalls, Htimer. fold w1 in Hcalls, Htimer.
  rewrite (bool_decide_eq_true_2 _ Hc), Hrun, Hsrc in Htimer.
  cbn [andb] in Htimer. unfold pool_alloc in Htimer. cbn [snd] in Htimer.
  fold id in Htimer. clearbody w1.
  injection Htimer as Hs1 Hml1.
  pose proof (run_registry_ops_frame ops w1) as (_ & Hml2 & Hs2 & Hcalls2 & _).
  fold w2 in Hml2, Hs2, Hcalls2.
  assert (Hlive : live (main_loop w2) !! id
                  = Some (mkTimeoutSource
                            (stop_kolibri_timeout_interval (pub w))
                            StopKolibriCb)).
  { rewrite Hml2, Hml1. cbn [live]. apply lookup_insert_eq. }
  assert (Hw3 : w3 = set_main_loop (pool_free id (main_loop w2))
                       (stop_kolibri_timeout_cb w2).1)
    by (by apply (dispatch_stop_source w2 id _ Hlive)).
  pose proof (stop_cb_fields w2) as (_ & Hs3 & _ & _ & _ & _ & _ & Hn3).
  cbv zeta in Hs3, Hn3.
  clearbody w3 w2. subst w3. split_and!.
  - done.
  - done.
  - cbn. apply lookup_delete_eq.
  - change (stop_calls (pub (stop_kolibri_timeout_cb w2).1)
            = (stop_calls (pub w)
               + (if bool_decide (clients_count (pub w2) = 0%nat)
                  then 1 else 0))%nat).
    rewrite Hn3. f_equal.
    unfold stop_calls. rewrite Hcalls2, Hcalls.
    by rewrite filter_cons_False.
Qed.

End ControllerFacts.

(** ** Bus scope *)

Section BusScope.
Context {SM : Type} {HSM : ServiceManager SM}.

(** What [do_handle_local_options] resolves for each combination of the two
    flags: the system bus exactly when [--system] is given, the session bus
    when [--session] is given or [--system] is not. *)
Lemma bus_scope_resolution (w : World SM) session system timeout :
  let w' :=
    (do_handle_local_options (App.parse_flags session system timeout) w).1 in
  use_session_bus (app w') = Some (session || negb system) ∧
  use_system_bus (app w') = Some system.
Proof.
  unfold do_handle_local_options, App.parse_flags.
  destruct session, system, timeout as [v|]; cbn;
    try case_bool_decide; done.
Qed.

Lemma session_is_default (w : World SM) timeout :
  let w' := (do_handle_local_options (App.mkOptions None None timeout) w).1 in
  use_session_bus (app w') = Some true ∧ use_system_bus (app w') = Some false.
Proof.
  unfold do_handle_local_options.
  destruct timeout as [v|]; cbn; try case_bool_decide; done.
Qed.

End BusScope.

(** C9 — the two bus options are not kept apart by the code.  With both
    [--session] and [--system] on the command line,
    [do_handle_local_options] selects the session bus and the system bus
    together, although its own comment calls the options mutually
    exclusive. *)
Theorem both_flags_select_both_buses :
  let w' :=
    (do_handle_local_options (App.parse_flags true true None)
       sample_world).1 in
  use_session_bus (app w') = Some true ∧ use_system_bus (app w') = Some true.
Proof. vm_compute. done. Qed.

(** ** More checks on sample data *)

Example sample_tick_arms_and_holds :
  let w1 := (auto_stop_timeout_cb sample_world).1 in
  stop_kolibri_timeout_source (pub w1) = Some 3%positive ∧
  live (main_loop w1) !! 3%positive
    = Some (mkTimeoutSource 60 StopKolibriCb) ∧
  hold_tokens (app w1) = {[1%positive]} ∧
  use_count (app w1) = 1.
Proof. vm_compute. done. Qed.

Example sample_tick_with_client_disarms :
  let w1 := (auto_stop_timeout_cb sample_world).1 in
  let w2 := hold_for_client 5%positive ":1.42" w1 in
  let w3 := (auto_stop_timeout_cb w2).1 in
  stop_kolibri_timeout_source (pub w3) = None ∧
  live (main_loop w3) !! 3%positive = None ∧
  live (main_loop w3) !! 2%positive = Some (mkTimeoutSource 5 AutoStopCb) ∧
  service_manager (pub w3) = true ∧
  stop_calls (pub w3) = 0%nat ∧
  use_count (app w3) = 1.
Proof. vm_compute. done. Qed.

Example sample_dispatch_runs_tick :
  dispatch 2%positive sample_world = (auto_stop_timeout_cb sample_world).1.
Proof. vm_compute. reflexivity. Qed.

Example sample_fire_with_client_keeps_running :
  let w1 := (auto_stop_timeout_cb sample_world).1 in
  let w2 := hold_for_client 5%positive ":1.42" w1 in
  let w3 := dispatch 3%positive w2 in
  stop_kolibri_timeout_source (pub w3) = None ∧
  live (main_loop w3) !! 3%positive = None ∧
  service_manager (pub w3) = true ∧
  stop_calls (pub w3) = 0%nat.
Proof. vm_compute. done. Qed.

Example sample_both_flags :
  (let w' := (do_handle_local_options (App.parse_flags true false None)
                sample_world).1 in
   (use_session_bus (app w'), use_system_bus (app w')))
    = (Some true, Some false) ∧
  (let w' := (do_handle_local_options (App.parse_flags false true (Some 5))
                sample_world).1 in
   (use_session_bus (app w'), use_system_bus (app w'),
    stop_kolibri_timeout_interval (pub w')))
    = (Some false, Some true, 5).
Proof. vm_compute. done. Qed.

Example sample_registry_count :
  clients_count
    (pub (run_registry_ops
            [Hold 5%positive ":1.42"; Hold 6%positive ":1.43";
             Hold 7%positive ":1.42"; Release ":1.50";
             Vanished 6%positive ":1.43"] sample_world)) = 1%nat.
Proof. vm_compute. done. Qed.

Lemma stop_timer_fires_witness :
  clients_count (pub sample_world) = 0%nat ∧
  sm_is_running (sm_cleanup (service_manager (pub sample_world))) = true ∧
  stop_kolibri_timeout_source (pub sample_world) = None ∧
  stop_calls
    (pub (dispatch 3%positive
            (run_registry_ops come_and_go
               (auto_stop_timeout_cb sample_world).1))) = 1%nat ∧
  service_manager
    (pub (dispatch 3%positive
            (run_registry_ops come_and_go
               (auto_stop_timeout_cb sample_world).1))) = false.
Proof.
  assert (H1 : clients_count (pub sample_world) = 0%nat)
    by (vm_compute; reflexivity).
  assert (H2 : sm_is_running (sm_cleanup (service_manager (pub sample_world)))
               = true) by reflexivity.
  assert (H3 : stop_kolibri_timeout_source (pub sample_world) = None)
    by reflexivity.
  split; [exact H1|]. split; [exact H2|]. split; [exact H3|].
  destruct (proj2 (stop_timer_fires sample_world come_and_go) H1 H2 H3)
    as (_ & _ & _ & R).
  split; [|vm_compute; reflexivity].
  etransitivity; [exact R|]. vm_compute. reflexivity.
Defined.

Lemma registry_count_witness :
  (":1.7" ∉ dom (hold_clients (pub sample_world))) ∧
  release_for_client ":1.7" sample_world = sample_world.
Proof.
  assert (H1 : ":1.7" ∉ dom (hold_clients (pub sample_world))).
  { intros H. vm_compute in H. discriminate H. }
  split; [exact H1|].
  destruct (registry_count [] sample_world 1%positive true
              5%positive 6%positive ":1.7")
    as (_ & _ & _ & _ & R & _).
  exact (R H1).
Defined.

Lemma hold_tokens_match_use_count_witness :
  (1%positive ∈ hold_tokens (App.hold_with_token 1%positive App.init)) ∧
  App.hold_with_token 1%positive (App.hold_with_token 1%positive App.init)
  = App.hold_with_token 1%positive App.init.
Proof.
  assert (H1 : 1%positive
               ∈ hold_tokens (App.hold_with_token 1%positive App.init)).
  { vm_compute. reflexivity. }
  split; [exact H1|].
  destruct (hold_tokens_match_use_count []
              (App.hold_with_token 1%positive App.init) 1%positive)
    as (_ & _ & _ & _ & R & _).
  exact (R H1).
Defined.

(** * Further properties of the module *)

(** ** Keys *)

Section KeyFacts.

Lemma find_sep_Some s h t :
  PyStr.find_sep SEP s = Some (h, t) →
  s = h +:+ SEP +:+ t ∧ PyStr.contains colon h = false.
Proof.
  revert h t. induction s as [|c s IH]; intros h t.
  - done.
  - cbn [PyStr.find_sep]. rewrite prefix_SEP_cons.
    destruct (Ascii.eqb colon c) eqn:Ec.
    + intros [= <- <-]. apply Ascii.eqb_eq in Ec as <-. done.
    + destruct (PyStr.find_sep SEP s) as [[h' t']|]; [|done].
      intros [= <- <-]. destruct (IH h' t' eq_refl) as [-> Hh].
      split; [done|]. cbn [PyStr.contains]. by rewrite Ec.
Qed.

Lemma append_empty_r s : s +:+ EmptyString +:+ EmptyString = s.
Proof.
  induction s as [|c s IH]; [done|].
  change (String c (s +:+ EmptyString +:+ EmptyString) = String c s).
  by rewrite IH.
Qed.

(** X1 — [str.partition(":")] as the module uses it.  The three parts put
    together give the string back, the first part never contains a colon,
    and the separator part is the colon exactly when the string contains
    one (otherwise the last two parts are empty). *)
Theorem partition_reassembles s :
  let '(h, sep, t) := PyStr.partition SEP s in
  h +:+ sep +:+ t = s ∧
  PyStr.contains colon h = false ∧
  (if PyStr.contains colon s then sep = SEP
   else sep = EmptyString ∧ t = EmptyString ∧ h = s).
Proof.
  unfold PyStr.partition.
  destruct (PyStr.find_sep SEP s) as [[h t]|] eqn:E.
  - destruct (find_sep_Some _ _ _ E) as [-> Hh]. split_and!; [done|done|].
    rewrite contains_app, Hh. done.
  - apply find_sep_None in E. rewrite E. split_and!; try done.
    apply append_empty_r.
Qed.

(** X2 — a generated key decodes to what it was made from.  Splitting the
    key of user [n] with suffix [hex] at the first colon gives back the
    printed id and the whole suffix, even if the suffix has colons of its
    own; hence two generated keys are equal only for the same user and the
    same suffix. *)
Theorem key_round_trip hex1 hex2 n m :
  PyStr.partition SEP (generate_token_key hex1 (str n)) = (str n, SEP, hex1) ∧
  (generate_token_key hex1 (str n) = generate_token_key hex2 (str m)
   ↔ n = m ∧ hex1 = hex2).
Proof.
  split; [apply partition_key, str_no_colon|]. split.
  - intros E. apply (f_equal (PyStr.partition SEP)) in E.
    rewrite !partition_key in E by apply str_no_colon.
    injection E as En Eh. split; [by apply str_inj | done].
  - by intros [-> ->].
Qed.

End KeyFacts.

(** ** More on the login-token store *)

Section StoreFacts.
Variable T : Z.

Local Abbreviation store := (gmap string LoginToken).

(** X3 — stored keys identify their entry.  In every store the manager can
    reach, a token is filed under the printed id of its own user, its key
    starts with that id, and no two entries carry the same key. *)
Theorem reachable_store_keys (st : store) uid1 uid2 t1 t2 :
  reachable T st →
  st !! uid1 = Some t1 →
  st !! uid2 = Some t2 →
  uid1 = str (user_id (user t1)) ∧
  key_prefix (key t1) = uid1 ∧
  (key t1 = key t2 → uid1 = uid2 ∧ t1 = t2).
Proof.
  intros Hr E1 E2. pose proof (reachable_wf T st Hr) as Hwf.
  destruct (Hwf _ _ E1) as [Hu1 _].
  pose proof (wf_key_prefix st _ _ Hwf E1) as Hk1.
  pose proof (wf_key_prefix st _ _ Hwf E2) as Hk2.
  split_and!; [done|done|].
  intros Ek. rewrite Ek, Hk2 in Hk1. subst uid2.
  split; [done|]. congruence.
Qed.

(** X4 — nothing expired survives a redemption attempt.  After
    [pop_login_token] at clock reading [now], whatever the key, every token
    left in the store is unexpired at [now]; and a token that is returned
    is unexpired at [now] and no longer in the store. *)
Theorem pop_never_returns_expired (st : store) now k :
  (∀ uid t, (pop_login_token now k st).2 !! uid = Some t →
     is_expired now t = false) ∧
  (∀ tok, (pop_login_token now k st).1 = Some tok →
     is_expired now tok = false ∧
     (pop_login_token now k st).2 !! key_prefix k = None).
Proof.
  unfold pop_login_token. split.
  - intros uid t E%pop_raw_lookup. by apply revoke_lookup_Some in E as [_ ?].
  - intros tok. rewrite pop_raw_unfold.
    destruct (revoke_expired_tokens now st !! key_prefix k) as [tok'|] eqn:E;
      [|done].
    case_bool_decide; [|done]. cbn. intros [= <-].
    apply revoke_lookup_Some in E as [_ ?].
    split; [done | apply lookup_delete_eq].
Qed.

(** X5 — purges compose.  Purging at one clock reading and then at another
    leaves the same store as one purge at the later of the two; purging
    twice at the same reading is the same as purging once. *)
Theorem purge_composes (st : store) t1 t2 :
  revoke_expired_tokens t2 (revoke_expired_tokens t1 st)
    = revoke_expired_tokens (PyFloat.later t1 t2) st ∧
  revoke_expired_tokens t1 (revoke_expired_tokens t1 st)
    = revoke_expired_tokens t1 st.
Proof.
  split.
  - apply map_eq. intros uid. apply option_eq. intros tok.
    rewrite !revoke_lookup_Some. unfold is_expired.
    rewrite not_before_later. intuition.
  - apply map_eq. intros uid. apply option_eq. intros tok.
    rewrite !revoke_lookup_Some. intuition.
Qed.

(** X6 — issuing a token touches one entry only.  [generate_for_user]
    files the new token under the user's printed id; every other entry of
    the result is the entry of the purged store, so no other user's
    unexpired token is lost or changed, and the store grows by at most
    one. *)
Theorem issue_touches_one_entry (st : store) tp ti hex u :
  let issued := generate_for_user T tp ti hex u st in
  issued.2 !! str (user_id u) = Some issued.1 ∧
  user issued.1 = u ∧
  expires issued.1 = PyFloat.add ti (PyFloat.of_int T) ∧
  delete (str (user_id u)) issued.2
    = delete (str (user_id u)) (revoke_expired_tokens tp st) ∧
  (size issued.2 ≤ S (size st))%nat.
Proof.
  cbn. split_and!; try done.
  - apply lookup_insert_eq.
  - apply delete_insert_eq.
  - rewrite map_size_insert.
    pose proof (map_subseteq_size _ _
                  (map_filter_subseteq
                     (λ kv : string * LoginToken, is_expired tp kv.2 = false)
                     st)) as Hs.
    unfold revoke_expired_tokens. case_match; unfold id; lia.
Qed.

(** X7 — redeeming touches one entry only and never grows the store.
    Apart from the purge, [pop_login_token] changes at most the entry under
    the prefix of the supplied key. *)
Theorem pop_touches_one_entry (st : store) now k :
  delete (key_prefix k) (pop_login_token now k st).2
    = delete (key_prefix k) (revoke_expired_tokens now st) ∧
  (size (pop_login_token now k st).2 ≤ size st)%nat.
Proof.
  pose proof (map_subseteq_size _ _
                (map_filter_subseteq
                   (λ kv : string * LoginToken, is_expired now kv.2 = false)
                   st)) as Hs.
  unfold pop_login_token. rewrite pop_raw_unfold.
  destruct (revoke_expired_tokens now st !! key_prefix k) as [tok|] eqn:E;
    [|done].
  case_bool_decide; [|done]. cbn. split.
  - apply delete_delete_eq.
  - rewrite map_size_delete. unfold revoke_expired_tokens in *.
    rewrite E. lia.
Qed.

End StoreFacts.

(** ** Issue and redemption through the application *)

Section HandOff.
Context {SM : Type} {HSM : ServiceManager SM}.

Local Abbreviation store := (gmap string LoginToken).

Lemma pop_issued T (st : store) u hex tp t0 t :
  let issued := generate_for_user T tp t0 hex u st in
  pop_login_token t (key issued.1) issued.2
  = if PyFloat.ltb (PyFloat.add t0 (PyFloat.of_int T)) t
    then (None, revoke_expired_tokens t issued.2)
    else (Some issued.1,
          delete (str (user_id u)) (revoke_expired_tokens t issued.2)).
Proof.
  intros issued.
  assert (Hk : key_prefix (key issued.1) = str (user_id u))
    by apply key_prefix_generated.
  assert (Hl : issued.2 !! str (user_id u) = Some issued.1)
    by apply lookup_insert_eq.
  assert (He : is_expired t issued.1
               = PyFloat.ltb (PyFloat.add t0 (PyFloat.of_int T)) t) by done.
  clearbody issued. rewrite <-He.
  unfold pop_login_token. rewrite pop_raw_unfold, Hk.
  destruct (is_expired t issued.1) eqn:Hx.
  - assert (Hr : revoke_expired_tokens t issued.2 !! str (user_id u) = None).
    { destruct (revoke_expired_tokens t issued.2 !! str (user_id u))
        as [tok|] eqn:E; [|done].
      apply revoke_lookup_Some in E as [E Hx']. rewrite Hl in E.
      injection E as <-. congruence. }
    by rewrite Hr.
  - assert (Hr : revoke_expired_tokens t issued.2 !! str (user_id u)
                 = Some issued.1) by by apply revoke_lookup_Some.
    rewrite Hr. by rewrite bool_decide_eq_true_2.
Qed.

Lemma pop_issued_gone T (st : store) u hex tp t0 t :
  let issued := generate_for_user T tp t0 hex u st in
  (pop_login_token t (key issued.1) issued.2).2 !! str (user_id u) = None.
Proof.
  intros issued. subst issued. rewrite pop_issued. cbv zeta.
  destruct (PyFloat.ltb _ t) eqn:Hx; cbn [snd].
  - destruct (revoke_expired_tokens t _ !! str (user_id u)) as [tok|] eqn:E;
      [|done].
    apply revoke_lookup_Some in E as [E Hx']. cbn in E.
    rewrite lookup_insert_eq in E. injection E as <-.
    unfold is_expired in Hx'. cbn in Hx'. congruence.
  - apply lookup_delete_eq.
Qed.

Lemma asdict_lookups u :
  asdict u !! "user_id" = Some (VInt (user_id u)) ∧
  asdict u !! "user_name" = Some (VStr (user_name u)) ∧
  asdict u !! "full_name" = Some (VStr (full_name u)) ∧
  asdict u !! "is_admin" = Some (VBool (is_admin u)).
Proof. unfold asdict. split_and!; by simplify_map_eq. Qed.

Lemma asdict_inj u u' : asdict u = asdict u' → u = u'.
Proof.
  intros E.
  destruct (asdict_lookups u) as (H1 & H2 & H3 & H4).
  destruct (asdict_lookups u') as (H1' & H2' & H3' & H4').
  rewrite E in H1, H2, H3, H4.
  destruct u, u'; cbn in *. congruence.
Qed.

Lemma asdict_nonempty u : asdict u ≠ ∅.
Proof.
  intros E. destruct (asdict_lookups u) as (H1 & _).
  rewrite E in H1. by rewrite lookup_empty in H1.
Qed.

Lemma on_check_unfold now k a :
  on_check_login_token now k a
  = (match (pop_login_token now k (login_tokens a)).1 with
     | Some tk => asdict (user tk)
     | None => ∅
     end,
     App.set_login_tokens (pop_login_token now k (login_tokens a)).2
       (App.reset_inactivity_timeout a)).
Proof.
  unfold on_check_login_token, App.check_login_token.
  cbn [login_tokens App.reset_inactivity_timeout App.release App.hold].
  by destruct (pop_login_token now k (login_tokens a)).
Qed.

Lemma app_generate_unfold tp ti hex u a :
  App.generate_login_token tp ti hex u a
  = ((generate_for_user TOKEN_EXPIRE_TIME tp ti hex u (login_tokens a)).1,
     App.set_login_tokens
       (generate_for_user TOKEN_EXPIRE_TIME tp ti hex u (login_tokens a)).2
       a).
Proof. done. Qed.

(** X8 — issue, redeem, redeem again.  A token issued through
    [generate_login_token] at clock reading [t0] and checked through
    [__on_check_login_token] at reading [t] yields the empty dictionary
    when the stored expiry, the float sum of [t0] and 60, is less than [t],
    and the user's details otherwise; a second check of the same key yields
    the empty dictionary at whatever reading; and the two checks leave the
    use count and the hold tokens as they were. *)
Theorem issue_then_check (a : Application) tp t0 hex u t t' :
  let issued := App.generate_login_token tp t0 hex u a in
  let first := on_check_login_token t (key issued.1) issued.2 in
  let second := on_check_login_token t' (key issued.1) first.2 in
  first.1
    = (if PyFloat.ltb (PyFloat.add t0 (PyFloat.of_int TOKEN_EXPIRE_TIME)) t
       then ∅ else asdict u) ∧
  second.1 = ∅ ∧
  use_count second.2 = use_count a ∧
  hold_tokens second.2 = hold_tokens a.
Proof.
  intros issued first second. subst second first issued.
  rewrite !on_check_unfold, !app_generate_unfold.
  cbn [fst snd login_tokens hold_tokens hold_calls release_calls
       App.set_login_tokens App.reset_inactivity_timeout App.hold
       App.release].
  set (G := generate_for_user TOKEN_EXPIRE_TIME tp t0 hex u (login_tokens a)).
  pose proof (pop_issued TOKEN_EXPIRE_TIME (login_tokens a) u hex tp t0 t)
    as Hpop.
  pose proof (pop_issued_gone TOKEN_EXPIRE_TIME (login_tokens a) u hex tp t0 t)
    as Hgone.
  cbv zeta in Hpop, Hgone. fold G in Hpop, Hgone.
  assert (Hk : key_prefix (key G.1) = str (user_id u))
    by apply key_prefix_generated.
  split_and!.
  - rewrite Hpop. by destruct (PyFloat.ltb _ t).
  - rewrite (pop_not_redeemable t' (key G.1)); [done|].
    intros tok. by rewrite Hk, Hgone.
  - unfold use_count.
    cbn [hold_calls release_calls App.set_login_tokens
         App.reset_inactivity_timeout App.hold App.release]. lia.
  - done.
Qed.

(** X9 — the reply tells presence from absence.  The dictionary built by
    [__on_check_login_token] is empty exactly when [pop_login_token] found
    nothing, and otherwise determines the user it was built from. *)
Theorem reply_tells_presence (a : Application) now k u u' :
  ((on_check_login_token now k a).1 = ∅
     ↔ (pop_login_token now k (login_tokens a)).1 = None) ∧
  (asdict u = asdict u' ↔ u = u') ∧
  asdict u ≠ ∅.
Proof.
  split_and!.
  - rewrite on_check_unfold. cbn [fst].
    destruct (pop_login_token now k (login_tokens a)).1 as [tok|].
    + split; [|done]. intros E. by apply asdict_nonempty in E.
    + done.
  - split; [apply asdict_inj | by intros ->].
  - apply asdict_nonempty.
Qed.

End HandOff.

(** ** Identity resolution *)

Section Identity.
Context {SM : Type} {HSM : ServiceManager SM}.

Lemma handle_check_unfold now k (w : World SM) :
  handle_check_login_token now k w
  = ((on_check_login_token now k (app w)).1,
     set_app (on_check_login_token now k (app w)).2 w).
Proof.
  unfold handle_check_login_token.
  by destruct (on_check_login_token now k (app w)).
Qed.

(** X10 — what [GetLoginToken] does to the daemon.  The handler never
    touches the controller, the timers, the watchers, the use count or the
    hold tokens.  When it answers with a key, the caller was resolved to
    some user, the key is that user's printed id, a colon and the fresh
    suffix, and the store holds a token for exactly that user and key,
    whose expiry is the float sum of the issue reading and 60.  When it answers with an error, or
    the directory lookup raises, the token store is left untouched (not
    even purged). *)
Theorem get_login_token_outcomes lp svc tp ti hex uid (w : World SM) :
  let r := on_handle_get_login_token lp svc tp ti hex uid w in
  pub r.2 = pub w ∧
  main_loop r.2 = main_loop w ∧
  name_watches r.2 = name_watches w ∧
  use_count (app r.2) = use_count (app w) ∧
  hold_tokens (app r.2) = hold_tokens (app w) ∧
  match r.1 with
  | ReplyKey k =>
      ∃ ud, get_user_detail lp svc uid = Returned (Some ud) ∧
            k = generate_token_key hex (str (user_id ud)) ∧
            login_tokens (app r.2) !! str (user_id ud)
              = Some (mkLoginToken ud k
                        (PyFloat.add ti (PyFloat.of_int TOKEN_EXPIRE_TIME)))
  | ReplyError _ =>
      get_user_detail lp svc uid = Returned None ∧
      login_tokens (app r.2) = login_tokens (app w)
  | HandlerRaised =>
      get_user_detail lp svc uid = Raised ∧
      login_tokens (app r.2) = login_tokens (app w)
  end.
Proof.
  unfold on_handle_get_login_token.
  destruct (get_user_detail lp svc uid) as [[ud|]|] eqn:E.
  - rewrite app_generate_unfold.
    cbn [fst snd app pub main_loop name_watches set_app].
    split_and!; try done.
    + unfold use_count.
      cbn [hold_calls release_calls App.set_login_tokens
           App.reset_inactivity_timeout App.hold App.release]. lia.
    + exists ud. split_and!; try done.
      cbn [login_tokens App.set_login_tokens App.reset_inactivity_timeout
           App.hold App.release].
      apply lookup_insert_eq.
  - cbn [fst snd app pub main_loop name_watches set_app].
    split_and!; try done. unfold use_count. cbn. lia.
  - cbn [fst snd app pub main_loop name_watches set_app].
    split_and!; try done. unfold use_count. cbn. lia.
Qed.

(** X11 — the local user is always let in, as an administrator.  When the
    caller's id is the id of the local account, the handler answers with a
    key whatever the state of the accounts service (absent, failing, or
    disagreeing about the user), and checking that key at a reading that
    is not after the stored expiry (the float sum of the issue reading and
    60) yields the local account's details with [is_admin] true; after the
    expiry the reply is empty. *)
Theorem local_caller_end_to_end p svc tp ti hex t (w : World SM) :
  let r := on_handle_get_login_token (Some p) svc tp ti hex (pw_uid p) w in
  let k := generate_token_key hex (str (pw_uid p)) in
  r.1 = ReplyKey k ∧
  (handle_check_login_token t k r.2).1
    = (if PyFloat.ltb (PyFloat.add ti (PyFloat.of_int TOKEN_EXPIRE_TIME)) t
       then ∅
       else asdict (mkUserDetail (pw_uid p) (pw_name p) (pw_gecos p) true)).
Proof.
  intros r k. subst r k. unfold on_handle_get_login_token, get_user_detail.
  rewrite bool_decide_eq_true_2 by done.
  rewrite app_generate_unfold. cbn [fst snd]. split; [done|].
  rewrite handle_check_unfold, on_check_unfold.
  cbn [fst snd app set_app login_tokens App.set_login_tokens
       App.reset_inactivity_timeout App.hold App.release].
  pose proof (pop_issued TOKEN_EXPIRE_TIME (login_tokens (app w))
                (from_pwd_user p true) hex tp ti t) as Hpop.
  cbv zeta in Hpop.
  change (generate_token_key hex (str (pw_uid p)))
    with (key (generate_for_user TOKEN_EXPIRE_TIME tp ti hex
                 (from_pwd_user p true) (login_tokens (app w))).1).
  rewrite Hpop. by destruct (PyFloat.ltb _ t).
Qed.

(** X12 — without a directory, strangers are refused.  While no accounts
    service is attached, a caller whose id is not the local account's gets
    the error reply, and no token is issued. *)
Theorem stranger_refused_without_directory lp tp ti hex uid (w : World SM) :
  (∀ p, lp = Some p → uid ≠ pw_uid p) →
  let r := on_handle_get_login_token lp None tp ti hex uid w in
  r.1 = ReplyError "Error retrieving user details" ∧
  login_tokens (app r.2) = login_tokens (app w).
Proof.
  intros Hlp. unfold on_handle_get_login_token, get_user_detail.
  destruct lp as [p|]; [|done].
  rewrite bool_decide_eq_false_2 by (by apply Hlp). done.
Qed.

End Identity.

(** ** Invariants of the event loop *)

Section TimerInvariant.
Context {SM : Type} {HSM : ServiceManager SM}.

Local Abbreviation world := (World SM).

Lemma handle_of_call_sm c call f (p : PublicDBusInterface SM) :
  handle_of c (call_sm call f p) = handle_of c p.
Proof. by destruct c. Qed.

Lemma handle_of_set_hold_clients c m (p : PublicDBusInterface SM) :
  handle_of c (set_hold_clients m p) = handle_of c p.
Proof. by destruct c. Qed.

(** A turn that leaves the sources and the handles alone. *)
Lemma timers_same (w w' : world) :
  main_loop w' = main_loop w →
  (∀ c, handle_of c (pub w') = handle_of c (pub w)) →
  timers_consistent w → timers_consistent w'.
Proof.
  intros Hml Hh [H1 H2]. split.
  - intros id src. rewrite Hml, Hh. apply H1.
  - intros c id. rewrite Hml, Hh. apply H2.
Qed.

(** Registering a source for a handle that was empty. *)
Lemma timers_arm c src (w w' : world) :
  timers_consistent w →
  handle_of c (pub w) = None →
  callback src = c →
  main_loop w' = (pool_alloc src (main_loop w)).2 →
  handle_of c (pub w') = Some (next_id (main_loop w)) →
  (∀ c', c' ≠ c → handle_of c' (pub w') = handle_of c' (pub w)) →
  timers_consistent w'.
Proof.
  intros [H1 H2] Hnone Hcb Hml Hnew Hother. split.
  - intros id src'. rewrite Hml. cbn [pool_alloc snd live next_id].
    intros [[<- <-]|[Hne E]]%lookup_insert_Some.
    + split; [lia|]. by rewrite Hcb.
    + destruct (H1 _ _ E) as [Hlt Hh]. split; [lia|].
      destruct (decide (callback src' = c)) as [Ec|Ec].
      * rewrite Ec, Hnone in Hh. done.
      * by rewrite Hother.
  - intros c' id Hh. rewrite Hml. cbn [pool_alloc snd live].
    destruct (decide (c' = c)) as [->|Ec].
    + rewrite Hnew in Hh. injection Hh as <-.
      exists src. split; [apply lookup_insert_eq | done].
    + rewrite Hother in Hh by done.
      destruct (H2 _ _ Hh) as (src' & E & Hcb').
      exists src'. split; [|done].
      rewrite lookup_insert_ne; [done|].
      destruct (H1 _ _ E) as [Hlt _]. lia.
Qed.

(** Removing the source of a handle and clearing the handle. *)
Lemma timers_disarm c i (w w' : world) :
  timers_consistent w →
  handle_of c (pub w) = Some i →
  main_loop w' = pool_free i (main_loop w) →
  handle_of c (pub w') = None →
  (∀ c', c' ≠ c → handle_of c' (pub w') = handle_of c' (pub w)) →
  timers_consistent w'.
Proof.
  intros [H1 H2] Hi Hml Hnone Hother. split.
  - intros id src. rewrite Hml. cbn [pool_free live next_id].
    intros [Hne E]%lookup_delete_Some.
    destruct (H1 _ _ E) as [Hlt Hh]. split; [done|].
    destruct (decide (callback src = c)) as [Ec|Ec].
    + rewrite Ec, Hi in Hh. congruence.
    + by rewrite Hother.
  - intros c' id Hh. rewrite Hml. cbn [pool_free live].
    destruct (decide (c' = c)) as [->|Ec].
    + rewrite Hnone in Hh. done.
    + rewrite Hother in Hh by done.
      destruct (H2 _ _ Hh) as (src & E & Hcb).
      exists src. split; [|done].
      apply lookup_delete_Some. split; [|done].
      intros <-. destruct (H2 _ _ Hi) as (src' & E' & Hcb').
      congruence.
Qed.

Lemma timers_begin_stop (w : world) :
  timers_consistent w → timers_consistent (begin_stop_kolibri_timeout w).
Proof.
  intros H. unfold begin_stop_kolibri_timeout.
  destruct (stop_kolibri_timeout_source (pub w)) as [i|] eqn:E; [done|].
  apply (timers_arm StopKolibriCb
           (mkTimeoutSource (stop_kolibri_timeout_interval (pub w))
              StopKolibriCb) w);
    [exact H|exact E|reflexivity..|].
  by intros [] ?.
Qed.

Lemma timers_cancel_stop (w : world) :
  timers_consistent w → timers_consistent (cancel_stop_kolibri_timeout w).
Proof.
  intros H. unfold cancel_stop_kolibri_timeout.
  destruct (stop_kolibri_timeout_source (pub w)) as [i|] eqn:E; [|done].
  apply (timers_disarm StopKolibriCb i w);
    [exact H|exact E|reflexivity..|].
  by intros [] ?.
Qed.

Lemma timers_set_app a (w : world) :
  timers_consistent w → timers_consistent (set_app a w).
Proof. intros H. exact H. Qed.

Lemma timers_call_sm call f (w : world) :
  timers_consistent w → timers_consistent (set_pub (call_sm call f (pub w)) w).
Proof.
  apply timers_same; [done|]. intros c. apply handle_of_call_sm.
Qed.

Lemma timers_tick (w : world) :
  timers_consistent w → timers_consistent (auto_stop_timeout_cb w).1.
Proof.
  intros H. unfold auto_stop_timeout_cb. cbn [fst]. cbv zeta.
  destruct (_ || _); apply timers_set_app;
    (destruct (_ && _);
     [apply timers_begin_stop | apply timers_cancel_stop]);
    by apply timers_call_sm.
Qed.

Lemma timers_stop_fires id src (w : world) :
  timers_consistent w →
  live (main_loop w) !! id = Some src →
  callback src = StopKolibriCb →
  timers_consistent
    (set_main_loop (pool_free id (main_loop w)) (stop_kolibri_timeout_cb w).1).
Proof.
  intros H E Hcb. pose proof H as [H1 _].
  destruct (H1 _ _ E) as [_ Hh]. rewrite Hcb in Hh.
  eapply (timers_disarm StopKolibriCb id); [exact H|exact Hh|..].
  - unfold stop_kolibri_timeout_cb. cbn [fst]. by case_bool_decide.
  - unfold stop_kolibri_timeout_cb. cbn [fst]. by case_bool_decide.
  - intros c' Hc'. unfold stop_kolibri_timeout_cb. cbn [fst].
    case_bool_decide; by destruct c'.
Qed.

Lemma dispatch_not_live id (w : world) :
  live (main_loop w) !! id = None → dispatch id w = w.
Proof. intros E. unfold dispatch. by rewrite E. Qed.

Lemma dispatch_watch_source id src (w : world) :
  live (main_loop w) !! id = Some src →
  callback src = WatchChangesCb →
  dispatch id w = w.
Proof. intros E Hcb. unfold dispatch. by rewrite E, Hcb. Qed.

Lemma dispatch_auto_source id src (w : world) :
  live (main_loop w) !! id = Some src →
  callback src = AutoStopCb →
  dispatch id w = (auto_stop_timeout_cb w).1.
Proof. intros E Hcb. unfold dispatch. by rewrite E, Hcb. Qed.

Lemma timers_dispatch id (w : world) :
  timers_consistent w → timers_consistent (dispatch id w).
Proof.
  intros H.
  destruct (live (main_loop w) !! id) as [src|] eqn:E;
    [|by rewrite dispatch_not_live].
  destruct (callback src) eqn:Hcb.
  - by rewrite (dispatch_watch_source id src).
  - rewrite (dispatch_auto_source id src) by done. by apply timers_tick.
  - rewrite (dispatch_stop_source w id src E Hcb).
    by apply (timers_stop_fires id src).
Qed.

Lemma timers_hold_for_client c n (w : world) :
  timers_consistent w → timers_consistent (hold_for_client c n w).
Proof.
  unfold hold_for_client. case_bool_decide; [done|].
  apply timers_same; [done|]. intros k. apply handle_of_set_hold_clients.
Qed.

Lemma timers_release_for_client n (w : world) :
  timers_consistent w → timers_consistent (release_for_client n w).
Proof.
  unfold release_for_client. destruct (hold_clients (pub w) !! n); [|done].
  apply timers_same; [done|]. intros k. apply handle_of_set_hold_clients.
Qed.

Lemma timers_run_turn lp t (w : world) :
  timers_consistent w → timers_consistent (run_turn lp t w).
Proof.
  intros H. destruct t; cbn [run_turn].
  - apply timers_hold_for_client. exact H.
  - apply timers_release_for_client. exact H.
  - apply timers_release_for_client. exact H.
  - unfold on_handle_start. by apply timers_call_sm, timers_set_app.
  - unfold on_handle_stop. by apply timers_call_sm, timers_set_app.
  - unfold on_handle_get_login_token.
    destruct (get_user_detail _ _ _) as [[ud|]|]; exact H.
  - rewrite handle_check_unfold. exact H.
  - by apply timers_dispatch.
Qed.

Lemma timers_world_init self (sm : SM) : timers_consistent (world_init self sm).
Proof.
  unfold world_init, public_init.
  set (w0 := mkWorld App.init (public_new self sm) pool_empty pool_empty).
  assert (H0 : timers_consistent w0).
  { split; [intros id src E | intros c id E].
    - unfold w0 in E. cbn in E. by rewrite lookup_empty in E.
    - unfold w0 in E. by destruct c. }
  set (w1 := set_pub (call_sm CallInit sm_init (pub w0)) w0).
  assert (H1 : timers_consistent w1).
  { apply (timers_same w0); [done| |done]. intros c. by destruct c. }
  assert (H2 : timers_consistent (begin_watch_changes_timeout w1)).
  { apply (timers_arm WatchChangesCb (mkTimeoutSource 1 WatchChangesCb) w1);
      [exact H1|reflexivity..|].
    by intros [] ?. }
  apply (timers_arm AutoStopCb (mkTimeoutSource 5 AutoStopCb)
           (begin_watch_changes_timeout w1));
    [exact H2|reflexivity..|].
  by intros [] ?.
Qed.

End TimerInvariant.

Section WatchInvariant.
Context {SM : Type} {HSM : ServiceManager SM}.

Local Abbreviation world := (World SM).

Lemma watches_same (w w' : world) :
  name_watches w' = name_watches w →
  hold_clients (pub w') = hold_clients (pub w) →
  watches_consistent w → watches_consistent w'.
Proof.
  intros Hnw Hhc [H1 H2]. split.
  - intros id c n. rewrite Hnw, Hhc. apply H1.
  - intros n id. rewrite Hnw, Hhc. apply H2.
Qed.

Lemma watches_hold_for_client c n (w : world) :
  watches_consistent w → watches_consistent (hold_for_client c n w).
Proof.
  intros [H1 H2]. unfold hold_for_client.
  case_bool_decide as Hin; [done|].
  apply not_elem_of_dom in Hin.
  cbn [pool_alloc]. split.
  - intros id c' n'. cbn.
    intros [[<- [= <- <-]]|[Hne E]]%lookup_insert_Some.
    + split; [lia | apply lookup_insert_eq].
    + destruct (H1 _ _ _ E) as [Hlt Hh]. split; [lia|].
      rewrite lookup_insert_ne; [done|]. intros <-. congruence.
  - intros n' id. cbn.
    intros [[<- <-]|[Hne E]]%lookup_insert_Some.
    + exists c. apply lookup_insert_eq.
    + destruct (H2 _ _ E) as [c' E']. exists c'.
      rewrite lookup_insert_ne; [done|].
      destruct (H1 _ _ _ E') as [Hlt _]. lia.
Qed.

Lemma watches_release_for_client n (w : world) :
  watches_consistent w → watches_consistent (release_for_client n w).
Proof.
  intros [H1 H2]. unfold release_for_client.
  destruct (hold_clients (pub w) !! n) as [i|] eqn:Ei; [|done].
  split.
  - intros id c' n'. cbn.
    intros [Hne E]%lookup_delete_Some.
    destruct (H1 _ _ _ E) as [Hlt Hh]. split; [done|].
    apply lookup_delete_Some. split; [|done]. intros <-. congruence.
  - intros n' id. cbn.
    intros [Hne E]%lookup_delete_Some.
    destruct (H2 _ _ E) as [c' E']. exists c'.
    apply lookup_delete_Some. split; [|done].
    intros <-. destruct (H2 _ _ Ei) as [c'' E'']. congruence.
Qed.

Lemma dispatch_registry id (w : world) :
  name_watches (dispatch id w) = name_watches w ∧
  hold_clients (pub (dispatch id w)) = hold_clients (pub w) ∧
  self_token (pub (dispatch id w)) = self_token (pub w) ∧
  login_tokens (app (dispatch id w)) = login_tokens (app w).
Proof.
  unfold dispatch, run_callback, auto_stop_timeout_cb,
    stop_kolibri_timeout_cb, watch_changes_timeout_cb,
    begin_stop_kolibri_timeout, cancel_stop_kolibri_timeout,
    App.hold_with_token, App.release_with_token.
  destruct (live (main_loop w) !! id) as [[iv []]|]; cbn;
    repeat (case_bool_decide || case_match); cbn; done.
Qed.

Lemma watches_run_turn lp t (w : world) :
  watches_consistent w → watches_consistent (run_turn lp t w).
Proof.
  intros H. destruct t; cbn [run_turn].
  - by apply watches_hold_for_client.
  - by apply watches_release_for_client.
  - by apply watches_release_for_client.
  - exact H.
  - exact H.
  - unfold on_handle_get_login_token.
    destruct (get_user_detail _ _ _) as [[ud|]|]; exact H.
  - rewrite handle_check_unfold. exact H.
  - destruct (dispatch_registry id w) as (Hnw & Hhc & _).
    by apply (watches_same w).
Qed.

Lemma watches_world_init self (sm : SM) :
  watches_consistent (world_init self sm).
Proof.
  split.
  - intros id c n E. cbn in E. by rewrite lookup_empty in E.
  - intros n id E. cbn in E. by rewrite lookup_empty in E.
Qed.

End WatchInvariant.

Section ProcessHoldInvariant.
Context {SM : Type} {HSM : ServiceManager SM}.

Local Abbreviation world := (World SM).

Lemma dispatch_app id (w : world) :
  app (dispatch id w) = app w ∨
  app (dispatch id w) = App.hold_with_token (self_token (pub w)) (app w) ∨
  app (dispatch id w) = App.release_with_token (self_token (pub w)) (app w).
Proof.
  unfold dispatch, run_callback, auto_stop_timeout_cb,
    stop_kolibri_timeout_cb, watch_changes_timeout_cb,
    begin_stop_kolibri_timeout, cancel_stop_kolibri_timeout.
  destruct (live (main_loop w) !! id) as [[iv []]|]; cbn;
    repeat (case_bool_decide || case_match); cbn; auto.
Qed.

Lemma hold_ok_hold_with_token (w : world) a :
  hold_tokens a ⊆ {[self_token (pub w)]} →
  use_count a = Z.of_nat (size (hold_tokens a)) →
  hold_tokens (App.hold_with_token (self_token (pub w)) a)
    ⊆ {[self_token (pub w)]} ∧
  use_count (App.hold_with_token (self_token (pub w)) a)
    = Z.of_nat (size (hold_tokens
                        (App.hold_with_token (self_token (pub w)) a))).
Proof.
  intros Hsub Hcount. split.
  - unfold App.hold_with_token. case_bool_decide; cbn; [|done].
    by apply union_least.
  - pose proof (hold_with_token_gap (self_token (pub w)) a) as Hgap.
    unfold App.hold_gap in Hgap. lia.
Qed.

Lemma hold_ok_release_with_token (w : world) a :
  hold_tokens a ⊆ {[self_token (pub w)]} →
  use_count a = Z.of_nat (size (hold_tokens a)) →
  hold_tokens (App.release_with_token (self_token (pub w)) a)
    ⊆ {[self_token (pub w)]} ∧
  use_count (App.release_with_token (self_token (pub w)) a)
    = Z.of_nat (size (hold_tokens
                        (App.release_with_token (self_token (pub w)) a))).
Proof.
  intros Hsub Hcount. split.
  - unfold App.release_with_token. case_bool_decide; cbn; [|done].
    etrans; [apply subseteq_difference_l|]; done.
  - pose proof (release_with_token_gap (self_token (pub w)) a) as Hgap.
    unfold App.hold_gap in Hgap. lia.
Qed.

Lemma hold_ok_reset (w : world) :
  process_hold_consistent w →
  process_hold_consistent
    (set_app (App.reset_inactivity_timeout (app w)) w).
Proof.
  intros [Hsub Hcount]. split; [done|].
  unfold use_count in *. cbn. lia.
Qed.

Lemma process_hold_same (w w' : world) :
  self_token (pub w') = self_token (pub w) →
  hold_tokens (app w') = hold_tokens (app w) →
  use_count (app w') = use_count (app w) →
  process_hold_consistent w → process_hold_consistent w'.
Proof.
  intros Hs Ht Hc [H1 H2]. split; rewrite ?Hs, ?Ht, ?Hc; done.
Qed.

(** What a turn that is not a timeout does to the process hold: nothing. *)
Lemma call_turn_frame lp t (w : world) :
  (∀ id, t ≠ TurnTimeout id) →
  self_token (pub (run_turn lp t w)) = self_token (pub w) ∧
  hold_tokens (app (run_turn lp t w)) = hold_tokens (app w) ∧
  use_count (app (run_turn lp t w)) = use_count (app w).
Proof.
  intros Ht. destruct t; cbn [run_turn];
    try (by destruct (Ht id)).
  - unfold on_handle_hold, hold_for_client.
    case_bool_decide; cbn; split_and!; try done; unfold use_count; cbn; lia.
  - unfold on_handle_release, release_for_client. cbn.
    case_match; cbn; split_and!; try done; unfold use_count; cbn; lia.
  - unfold on_hold_client_vanished, release_for_client.
    case_match; cbn; done.
  - unfold on_handle_start. cbn. split_and!; try done.
    unfold use_count; cbn; lia.
  - unfold on_handle_stop. cbn. split_and!; try done.
    unfold use_count; cbn; lia.
  - unfold on_handle_get_login_token.
    destruct (get_user_detail _ _ _) as [[ud|]|];
      rewrite ?app_generate_unfold; cbn; split_and!; try done;
      unfold use_count; cbn; lia.
  - rewrite handle_check_unfold, on_check_unfold. cbn.
    split_and!; try done. unfold use_count; cbn; lia.
Qed.

Lemma process_hold_run_turn lp t (w : world) :
  process_hold_consistent w → process_hold_consistent (run_turn lp t w).
Proof.
  intros H.
  assert (Hcase : (∃ id, t = TurnTimeout id) ∨ (∀ id, t ≠ TurnTimeout id)).
  { destruct t; first [left; eexists; reflexivity | right; by intros ?]. }
  destruct Hcase as [[id ->]|Hn].
  - cbn [run_turn]. destruct H as [Hsub Hcount].
    destruct (dispatch_registry id w) as (_ & _ & Hself & _).
    unfold process_hold_consistent. rewrite Hself.
    destruct (dispatch_app id w) as [->|[->| ->]].
    + done.
    + by apply hold_ok_hold_with_token.
    + by apply hold_ok_release_with_token.
  - destruct (call_turn_frame lp t w Hn) as (Hs & Ht & Hc).
    by apply (process_hold_same w).
Qed.

Lemma process_hold_world_init self (sm : SM) :
  process_hold_consistent (world_init self sm).
Proof. split; [done|]. by vm_compute. Qed.

Lemma store_run_turn lp t (w : world) :
  reachable TOKEN_EXPIRE_TIME (login_tokens (app w)) →
  reachable TOKEN_EXPIRE_TIME (login_tokens (app (run_turn lp t w))).
Proof.
  intros H. destruct t; cbn [run_turn].
  - unfold on_handle_hold, hold_for_client. by case_bool_decide.
  - unfold on_handle_release, release_for_client. by case_match.
  - unfold on_hold_client_vanished, release_for_client. by case_match.
  - done.
  - done.
  - unfold on_handle_get_login_token.
    destruct (get_user_detail _ _ _) as [[ud|]|]; [|done|done].
    rewrite app_generate_unfold. cbn.
    apply (reachable_step TOKEN_EXPIRE_TIME
             (GenerateForUser now_purge now_issue hex ud)). exact H.
  - rewrite handle_check_unfold, on_check_unfold. cbn.
    apply (reachable_step TOKEN_EXPIRE_TIME (PopToken now token_key)).
    exact H.
  - destruct (dispatch_registry id w) as (_ & _ & _ & ->). exact H.
Qed.

End ProcessHoldInvariant.

Section ReachableWorlds.
Context {SM : Type} {HSM : ServiceManager SM}.
Variable LOCAL_USER_PWD : option PwdUser.
Variable self : Token.
Variable sm : SM.

Local Abbreviation world := (World SM).
Local Abbreviation reachable_w := (reachable_world LOCAL_USER_PWD self sm).

Lemma dispatch_main_loop id (w : world) :
  main_loop (dispatch id w) = main_loop w ∨
  (∃ src, callback src = StopKolibriCb ∧
          main_loop (dispatch id w) = (pool_alloc src (main_loop w)).2) ∨
  (∃ i, stop_kolibri_timeout_source (pub w) = Some i ∧
        main_loop (dispatch id w) = pool_free i (main_loop w)) ∨
  (∃ src, live (main_loop w) !! id = Some src ∧
          callback src = StopKolibriCb ∧
          main_loop (dispatch id w) = pool_free id (main_loop w)).
Proof.
  destruct (live (main_loop w) !! id) as [src|] eqn:E;
    [|left; by rewrite dispatch_not_live].
  destruct (callback src) eqn:Hcb.
  - left. by rewrite (dispatch_watch_source id src).
  - rewrite (dispatch_auto_source id src) by done.
    destruct (tick_fields w) as [_ Ht]. cbv zeta in Ht.
    remember (auto_stop_timeout_cb w).1 as w' eqn:Hw'. clear Hw'.
    destruct (_ && _), (stop_kolibri_timeout_source (pub w)) as [i|];
      injection Ht as _ Hml; rewrite Hml.
    + by left.
    + right. left.
      by exists (mkTimeoutSource (stop_kolibri_timeout_interval (pub w))
                   StopKolibriCb).
    + right. right. left. by exists i.
    + by left.
  - right. right. right. exists src. split_and!; [done|done|].
    by rewrite (dispatch_stop_source w id src E Hcb).
Qed.

Lemma run_turn_main_loop t (w : world) :
  (∀ id, t ≠ TurnTimeout id) →
  main_loop (run_turn LOCAL_USER_PWD t w) = main_loop w.
Proof.
  intros Ht. destruct t; cbn [run_turn]; try (by destruct (Ht id)).
  - unfold on_handle_hold, hold_for_client. by case_bool_decide.
  - unfold on_handle_release, release_for_client. by case_match.
  - unfold on_hold_client_vanished, release_for_client. by case_match.
  - done.
  - done.
  - unfold on_handle_get_login_token.
    by destruct (get_user_detail _ _ _) as [[ud|]|].
  - by rewrite handle_check_unfold.
Qed.

Lemma run_turn_periodic_handles t (w : world) :
  watch_changes_timeout_source (pub (run_turn LOCAL_USER_PWD t w))
    = watch_changes_timeout_source (pub w) ∧
  auto_stop_timeout_source (pub (run_turn LOCAL_USER_PWD t w))
    = auto_stop_timeout_source (pub w).
Proof.
  destruct t; cbn [run_turn].
  - unfold on_handle_hold, hold_for_client. by case_bool_decide.
  - unfold on_handle_release, release_for_client. by case_match.
  - unfold on_hold_client_vanished, release_for_client. by case_match.
  - done.
  - done.
  - unfold on_handle_get_login_token.
    by destruct (get_user_detail _ _ _) as [[ud|]|].
  - by rewrite handle_check_unfold.
  - unfold dispatch, run_callback, auto_stop_timeout_cb,
      stop_kolibri_timeout_cb, watch_changes_timeout_cb,
      begin_stop_kolibri_timeout, cancel_stop_kolibri_timeout.
    destruct (live (main_loop w) !! id) as [[iv []]|]; cbn;
      repeat (case_bool_decide || case_match); cbn; done.
Qed.

(** A source that is not the stop timer's survives every turn. *)
Lemma periodic_source_survives t id src (w : world) :
  timers_consistent w →
  live (main_loop w) !! id = Some src →
  callback src ≠ StopKolibriCb →
  live (main_loop (run_turn LOCAL_USER_PWD t w)) !! id = Some src.
Proof.
  intros [H1 H2] E Hcb.
  assert (Hcase : (∃ i, t = TurnTimeout i) ∨ (∀ i, t ≠ TurnTimeout i)).
  { destruct t; first [left; eexists; reflexivity | right; by intros ?]. }
  destruct Hcase as [[i ->]|Hn]; [|by rewrite run_turn_main_loop].
  cbn [run_turn].
  destruct (dispatch_main_loop i w)
    as [->|[(src' & Hcb' & ->)|[(j & Hj & ->)|(src' & E' & Hcb' & ->)]]].
  - done.
  - cbn. rewrite lookup_insert_ne; [done|].
    destruct (H1 _ _ E) as [Hlt _]. lia.
  - cbn. apply lookup_delete_Some. split; [|done]. intros <-.
    destruct (H2 StopKolibriCb j Hj) as (src' & E' & Hcb'). congruence.
  - cbn. apply lookup_delete_Some. split; [|done]. intros <-. congruence.
Qed.

(** X13 — the timers and GLib's sources always agree, and the periodic
    timers are never lost.  In every state the daemon can reach: each
    handle that is set names a live source with the matching callback,
    each live source is owned by the handle of its kind (no orphan source,
    no stale handle), and the change-poll source (1 s) and the
    reconciliation source (5 s) registered by [init] are still live under
    their original handles. *)
Theorem reachable_timers (w : world) :
  reachable_w w →
  timers_consistent w ∧
  watch_changes_timeout_source (pub w) = Some 1%positive ∧
  auto_stop_timeout_source (pub w) = Some 2%positive ∧
  live (main_loop w) !! 1%positive = Some (mkTimeoutSource 1 WatchChangesCb) ∧
  live (main_loop w) !! 2%positive = Some (mkTimeoutSource 5 AutoStopCb).
Proof.
  induction 1 as [|t w Hr (Hc & Hw & Ha & H1 & H2)].
  - split; [apply timers_world_init|]. by vm_compute.
  - destruct (run_turn_periodic_handles t w) as [Hw' Ha'].
    split_and!.
    + by apply timers_run_turn.
    + by rewrite Hw'.
    + by rewrite Ha'.
    + by apply periodic_source_survives.
    + by apply periodic_source_survives.
Qed.

(** X14 — the registry and Gio's watchers always agree.  In every state
    the daemon can reach, each held client has a live name watcher for its
    own name, each live watcher belongs to a held client (none is leaked),
    and two different clients never share a watcher id. *)
Theorem reachable_watches (w : world) n1 n2 id :
  reachable_w w →
  watches_consistent w ∧
  (hold_clients (pub w) !! n1 = Some id →
   hold_clients (pub w) !! n2 = Some id → n1 = n2).
Proof.
  intros Hr.
  assert (Hc : watches_consistent w).
  { induction Hr; [apply watches_world_init | by apply watches_run_turn]. }
  split; [done|]. intros E1 E2. destruct Hc as [_ H2].
  destruct (H2 _ _ E1) as [c1 F1]. destruct (H2 _ _ E2) as [c2 F2].
  congruence.
Qed.

(** X15 — the process hold is the controller's alone.  In every state the
    daemon can reach, the only hold token that can be present is the
    controller's own, the use count equals the number of tokens, and so the
    use count is 0 or 1. *)
Theorem reachable_process_hold (w : world) :
  reachable_w w →
  self_token (pub w) = self ∧
  hold_tokens (app w) ⊆ {[self]} ∧
  use_count (app w) = Z.of_nat (size (hold_tokens (app w))) ∧
  0 ≤ use_count (app w) ≤ 1.
Proof.
  intros Hr.
  assert (Hs : self_token (pub w) = self).
  { induction Hr as [|t w Hr IH]; [done|].
    assert (Hcase : (∃ i, t = TurnTimeout i) ∨ (∀ i, t ≠ TurnTimeout i)).
    { destruct t; first [left; eexists; reflexivity | right; by intros ?]. }
    destruct Hcase as [[i ->]|Hn].
    - cbn [run_turn]. destruct (dispatch_registry i w) as (_ & _ & -> & _).
      done.
    - destruct (call_turn_frame LOCAL_USER_PWD t w Hn) as (-> & _). done. }
  assert (Hc : process_hold_consistent w).
  { clear Hs. induction Hr;
      [apply process_hold_world_init | by apply process_hold_run_turn]. }
  destruct Hc as [Hsub Hcount]. rewrite Hs in Hsub.
  split_and!; try done; rewrite Hcount.
  - lia.
  - apply subseteq_size in Hsub. rewrite size_singleton in Hsub. lia.
Qed.

(** X16 — the daemon's token store is always a store the manager can
    reach.  Whatever calls and timeouts the daemon has served, its token
    store results from the empty store by issues and redemptions only, so
    every stored token is filed under its user's printed id with a key made
    of that id, a colon and a suffix. *)
Theorem reachable_token_store (w : world) :
  reachable_w w →
  reachable TOKEN_EXPIRE_TIME (login_tokens (app w)) ∧
  wf_store (login_tokens (app w)).
Proof.
  intros Hr.
  assert (H : reachable TOKEN_EXPIRE_TIME (login_tokens (app w))).
  { induction Hr; [apply reachable_init | by apply store_run_turn]. }
  split; [done|]. by apply (reachable_wf TOKEN_EXPIRE_TIME).
Qed.

(** X17 — only a timeout changes the process hold.  A D-Bus call of any
    kind, or a client's name vanishing, leaves the hold tokens, the use
    count and the timeout sources this module registers exactly as they
    were.  What a D-Bus call does do is reset the inactivity timeout: it
    issues exactly one [hold()] and one [release()], which cancel out in
    the use count; a name vanishing issues none. *)
Theorem calls_keep_process_hold t (w : world) :
  (∀ id, t ≠ TurnTimeout id) →
  hold_tokens (app (run_turn LOCAL_USER_PWD t w)) = hold_tokens (app w) ∧
  use_count (app (run_turn LOCAL_USER_PWD t w)) = use_count (app w) ∧
  main_loop (run_turn LOCAL_USER_PWD t w) = main_loop w ∧
  hold_calls (app (run_turn LOCAL_USER_PWD t w))
    = (hold_calls (app w) + inactivity_resets t)%nat ∧
  release_calls (app (run_turn LOCAL_USER_PWD t w))
    = (release_calls (app w) + inactivity_resets t)%nat.
Proof.
  intros Ht.
  destruct (call_turn_frame LOCAL_USER_PWD t w Ht) as (_ & H1 & H2).
  split_and!; [done|done|by apply run_turn_main_loop|..].
  - destruct t; cbn [run_turn inactivity_resets];
      try (by destruct (Ht id)).
    + unfold on_handle_hold, hold_for_client. case_bool_decide; cbn; lia.
    + unfold on_handle_release, release_for_client. cbn.
      case_match; cbn; lia.
    + unfold on_hold_client_vanished, release_for_client.
      case_match; cbn; lia.
    + unfold on_handle_start. cbn. lia.
    + unfold on_handle_stop. cbn. lia.
    + unfold on_handle_get_login_token.
      destruct (get_user_detail _ _ _) as [[ud|]|];
        rewrite ?app_generate_unfold; cbn; lia.
    + rewrite handle_check_unfold, on_check_unfold. cbn. lia.
  - destruct t; cbn [run_turn inactivity_resets];
      try (by destruct (Ht id)).
    + unfold on_handle_hold, hold_for_client. case_bool_decide; cbn; lia.
    + unfold on_handle_release, release_for_client. cbn.
      case_match; cbn; lia.
    + unfold on_hold_client_vanished, release_for_client.
      case_match; cbn; lia.
    + unfold on_handle_start. cbn. lia.
    + unfold on_handle_stop. cbn. lia.
    + unfold on_handle_get_login_token.
      destruct (get_user_detail _ _ _) as [[ud|]|];
        rewrite ?app_generate_unfold; cbn; lia.
    + rewrite handle_check_unfold, on_check_unfold. cbn. lia.
Qed.

End ReachableWorlds.

(** ** Timers: disarming, shutting down, configuring *)

Section TimerFacts.
Context {SM : Type} {HSM : ServiceManager SM}.

Local Abbreviation world := (World SM).

(** X18 — a disarmed stop timer cannot fire.  If the stop timer is armed
    and a client holds when the reconciliation tick runs, the tick clears
    the handle and removes the source, so GLib dispatching the old id
    afterwards changes nothing, and no stop call has been issued. *)
Theorem disarmed_timer_cannot_fire (w : world) id :
  stop_kolibri_timeout_source (pub w) = Some id →
  (0 < clients_count (pub w))%nat →
  let w1 := (auto_stop_timeout_cb w).1 in
  stop_kolibri_timeout_source (pub w1) = None ∧
  live (main_loop w1) !! id = None ∧
  dispatch id w1 = w1 ∧
  stop_calls (pub w1) = stop_calls (pub w).
Proof.
  intros Hsrc Hcount w1.
  destruct (tick_fields w) as [Hcalls Ht]. cbv zeta in Hcalls, Ht.
  fold w1 in Hcalls, Ht.
  rewrite (bool_decide_eq_false_2 (clients_count (pub w) = 0%nat)) in Ht
    by lia.
  rewrite Hsrc in Ht. cbn [andb] in Ht. clearbody w1.
  injection Ht as Hs Hml.
  assert (Hlive : live (main_loop w1) !! id = None).
  { rewrite Hml. cbn. apply lookup_delete_eq. }
  split_and!; [done|done|by apply dispatch_not_live|].
  unfold stop_calls. rewrite Hcalls. by rewrite filter_cons_False.
Qed.

Lemma shutdown_frame (w : world) :
  stop_kolibri_timeout_source (pub (public_shutdown w))
    = stop_kolibri_timeout_source (pub w) ∧
  watch_changes_timeout_source (pub (public_shutdown w)) = None ∧
  auto_stop_timeout_source (pub (public_shutdown w)) = None ∧
  hold_clients (pub (public_shutdown w)) = hold_clients (pub w) ∧
  app (public_shutdown w) = app w ∧
  sm_calls (pub (public_shutdown w)) = CallStop :: sm_calls (pub w).
Proof.
  unfold public_shutdown, cancel_auto_stop_timeout,
    cancel_watch_changes_timeout.
  destruct (watch_changes_timeout_source (pub w)) as [i|] eqn:Ew; cbn;
    destruct (auto_stop_timeout_source (pub w)) as [j|] eqn:Ea; cbn;
    rewrite ?Ew, ?Ea; done.
Qed.

Lemma shutdown_live (w : world) id src :
  live (main_loop (public_shutdown w)) !! id = Some src →
  live (main_loop w) !! id = Some src.
Proof.
  unfold public_shutdown, cancel_auto_stop_timeout,
    cancel_watch_changes_timeout.
  destruct (watch_changes_timeout_source (pub w)) as [i|] eqn:Ew; cbn;
    destruct (auto_stop_timeout_source (pub w)) as [j|] eqn:Ea; cbn;
    rewrite ?Ew, ?Ea; cbn;
    repeat (intros [_ E]%lookup_delete_Some; revert E); done.
Qed.

Lemma timers_cancel_watch (w : world) :
  timers_consistent w → timers_consistent (cancel_watch_changes_timeout w).
Proof.
  intros H. unfold cancel_watch_changes_timeout.
  destruct (watch_changes_timeout_source (pub w)) as [i|] eqn:E; [|done].
  apply (timers_disarm WatchChangesCb i w);
    [exact H|exact E|reflexivity..|].
  by intros [] ?.
Qed.

Lemma timers_cancel_auto (w : world) :
  timers_consistent w → timers_consistent (cancel_auto_stop_timeout w).
Proof.
  intros H. unfold cancel_auto_stop_timeout.
  destruct (auto_stop_timeout_source (pub w)) as [i|] eqn:E; [|done].
  apply (timers_disarm AutoStopCb i w);
    [exact H|exact E|reflexivity..|].
  by intros [] ?.
Qed.

(** X19 — shutdown silences the periodic timers, not the stop timer.
    From a state whose timers are consistent, [shutdown] clears both
    periodic handles, issues exactly one stop call, and leaves the registry
    and the application alone; the only source that can still be in the
    main loop afterwards is an armed stop timer, which [shutdown] does not
    cancel. *)
Theorem shutdown_silences_periodic_timers (w : world) :
  timers_consistent w →
  let w' := public_shutdown w in
  watch_changes_timeout_source (pub w') = None ∧
  auto_stop_timeout_source (pub w') = None ∧
  stop_kolibri_timeout_source (pub w') = stop_kolibri_timeout_source (pub w) ∧
  stop_calls (pub w') = S (stop_calls (pub w)) ∧
  hold_clients (pub w') = hold_clients (pub w) ∧
  app w' = app w ∧
  (∀ id src, live (main_loop w') !! id = Some src →
     callback src = StopKolibriCb ∧
     stop_kolibri_timeout_source (pub w) = Some id ∧
     live (main_loop w) !! id = Some src).
Proof.
  intros H w'.
  destruct (shutdown_frame w) as (Hs & Hw & Ha & Hh & Happ & Hcalls).
  fold w' in Hs, Hw, Ha, Hh, Happ, Hcalls.
  assert (Hc : timers_consistent w').
  { subst w'. unfold public_shutdown.
    by apply timers_call_sm, timers_cancel_auto, timers_cancel_watch. }
  split_and!; try done.
  - unfold stop_calls. rewrite Hcalls. by rewrite filter_cons_True.
  - intros id src E. pose proof (shutdown_live w id src E) as Hold.
    clearbody w'. destruct Hc as [H1 _].
    destruct (H1 _ _ E) as [_ Hh'].
    destruct (callback src) eqn:Hcb; unfold handle_of in Hh';
      [congruence|congruence|].
    rewrite Hs in Hh'. done.
Qed.

(** X20 — arming and disarming the stop timer.  Arming an armed timer and
    disarming a disarmed one do nothing; and, from a consistent state with
    the timer disarmed, arming and then disarming puts back the same
    sources and the same controller state. *)
Theorem stop_timer_arm_disarm (w : world) :
  begin_stop_kolibri_timeout (begin_stop_kolibri_timeout w)
    = begin_stop_kolibri_timeout w ∧
  cancel_stop_kolibri_timeout (cancel_stop_kolibri_timeout w)
    = cancel_stop_kolibri_timeout w ∧
  (timers_consistent w →
   stop_kolibri_timeout_source (pub w) = None →
   let w' := cancel_stop_kolibri_timeout (begin_stop_kolibri_timeout w) in
   live (main_loop w') = live (main_loop w) ∧ pub w' = pub w ∧ app w' = app w).
Proof.
  split_and!.
  - unfold begin_stop_kolibri_timeout.
    destruct (stop_kolibri_timeout_source (pub w)) as [i|] eqn:E.
    + by rewrite E.
    + done.
  - unfold cancel_stop_kolibri_timeout.
    destruct (stop_kolibri_timeout_source (pub w)) as [i|] eqn:E.
    + done.
    + by rewrite E.
  - intros [H1 _] E.
    unfold begin_stop_kolibri_timeout, cancel_stop_kolibri_timeout.
    rewrite E. cbn. split_and!.
    + apply delete_insert_id.
      destruct (live (main_loop w) !! next_id (main_loop w)) as [src|] eqn:F;
        [|done].
      destruct (H1 _ _ F) as [Hlt _]. lia.
    + destruct (pub w); cbn in *. by rewrite E.
    + done.
Qed.

(** X21 — some bus is always selected.  For every combination of the
    [--session] and [--system] flags, [do_handle_local_options] returns -1,
    selects the system bus exactly when [--system] is given and the session
    bus when [--session] is given or [--system] is not, so at least one of
    the two is selected; the registry, the sources, the hold state and the
    token store are not touched. *)
Theorem some_bus_always_selected (w : world) session system timeout :
  let r := do_handle_local_options (App.parse_flags session system timeout) w in
  r.2 = -1 ∧
  use_system_bus (app r.1) = Some system ∧
  use_session_bus (app r.1) = Some (session || negb system) ∧
  (use_session_bus (app r.1) = Some true ∨
   use_system_bus (app r.1) = Some true) ∧
  hold_clients (pub r.1) = hold_clients (pub w) ∧
  main_loop r.1 = main_loop w ∧
  hold_tokens (app r.1) = hold_tokens (app w) ∧
  use_count (app r.1) = use_count (app w) ∧
  login_tokens (app r.1) = login_tokens (app w).
Proof.
  unfold do_handle_local_options, App.parse_flags.
  destruct session, system, timeout as [v|]; cbn;
    try case_bool_decide; cbn; split_and!; auto.
Qed.

(** X22 — the configured grace interval reaches the next arming only.  A
    positive [--stop-timeout] value (an int32, so within what GLib accepts
    as an interval) becomes the controller's interval and is the interval
    of the source registered the next time the stop timer is armed;
    handling the options never touches the sources, so a timer that is
    already armed keeps the interval it was armed with.  Without the option
    the interval stays as it was. *)
Theorem stop_timeout_reaches_next_arming (w : world) session system v :
  0 < v ≤ 2147483647 →
  let w1 := (do_handle_local_options
               (App.mkOptions session system (Some v)) w).1 in
  let w0 := (do_handle_local_options
               (App.mkOptions session system None) w).1 in
  stop_kolibri_timeout_interval (pub w1) = v ∧
  main_loop w1 = main_loop w ∧
  stop_kolibri_timeout_source (pub w1) = stop_kolibri_timeout_source (pub w) ∧
  (stop_kolibri_timeout_source (pub w) = None →
   live (main_loop (begin_stop_kolibri_timeout w1)) !! next_id (main_loop w)
     = Some (mkTimeoutSource v StopKolibriCb)) ∧
  stop_kolibri_timeout_interval (pub w0)
    = stop_kolibri_timeout_interval (pub w).
Proof.
  intros Hv. unfold do_handle_local_options. cbn.
  rewrite bool_decide_eq_true_2 by lia. cbn.
  split_and!; try done.
  intros E. unfold begin_stop_kolibri_timeout. cbn. rewrite E. cbn.
  apply lookup_insert_eq.
Qed.

End TimerFacts.

(** ** Checks of the further properties on sample data *)

Lemma reachable_run_turns {SM : Type} {HSM : ServiceManager SM}
    lp self (sm : SM) ts w :
  reachable_world lp self sm w →
  reachable_world lp self sm (run_turns lp ts w).
Proof.
  revert w. induction ts as [|t ts IH]; intros w H; [done|].
  apply (IH (run_turn lp t w)). by apply reachable_world_turn.
Qed.

Lemma sample_after_run_reachable :
  reachable_world (Some sample_pwd) 1%positive true sample_after_run.
Proof. apply reachable_run_turns, reachable_world_init. Qed.

Example sample_after_run_state :
  clients_count (pub sample_after_run) = 0%nat ∧
  stop_kolibri_timeout_source (pub sample_after_run) = Some 3%positive ∧
  use_count (app sample_after_run) = 1 ∧
  (key <$> login_tokens (app sample_after_run) !! "1000")
    = Some "1000:0a1b" ∧
  (is_admin ∘ user <$> login_tokens (app sample_after_run) !! "1000")
    = Some true.
Proof. vm_compute. done. Qed.

Example sample_get_login_token_replies :
  (on_handle_get_login_token (Some sample_pwd) sample_directory
     0 0 "beef" 1001 sample_world).1 = ReplyKey "1001:beef" ∧
  (on_handle_get_login_token (Some sample_pwd) sample_directory
     0 0 "beef" 4242 sample_world).1 = HandlerRaised ∧
  (on_handle_get_login_token (Some sample_pwd) None
     0 0 "beef" 4242 sample_world).1
    = ReplyError "Error retrieving user details" ∧
  (on_handle_get_login_token None None
     0 0 "beef" 1000 sample_world).1
    = ReplyError "Error retrieving user details".
Proof. vm_compute. done. Qed.

Lemma reachable_store_keys_witness :
  reachable TOKEN_EXPIRE_TIME alice_issued.2 ∧
  alice_issued.2 !! "1000" = Some alice_issued.1 ∧
  key_prefix (key alice_issued.1) = "1000".
Proof.
  assert (Hr : reachable TOKEN_EXPIRE_TIME alice_issued.2).
  { exact (reachable_step TOKEN_EXPIRE_TIME
             (GenerateForUser 0 0 "0a1b" alice) ∅
             (reachable_init TOKEN_EXPIRE_TIME)). }
  assert (H1 : alice_issued.2 !! "1000" = Some alice_issued.1)
    by (vm_compute; reflexivity).
  split; [exact Hr|]. split; [exact H1|].
  destruct (reachable_store_keys TOKEN_EXPIRE_TIME alice_issued.2
              "1000" "1000" alice_issued.1 alice_issued.1 Hr H1 H1)
    as (_ & R & _).
  exact R.
Defined.

Lemma pop_never_returns_expired_witness :
  (pop_login_token 10 "1000:0a1b" alice_issued.2).1 = Some alice_issued.1 ∧
  is_expired 10 alice_issued.1 = false.
Proof.
  assert (H1 : (pop_login_token 10 "1000:0a1b" alice_issued.2).1
               = Some alice_issued.1) by (vm_compute; reflexivity).
  split; [exact H1|].
  exact (proj1 (proj2 (pop_never_returns_expired alice_issued.2 10
                         "1000:0a1b") alice_issued.1 H1)).
Defined.

Lemma stranger_refused_without_directory_witness :
  (∀ p, Some sample_pwd = Some p → 4242 ≠ pw_uid p) ∧
  (on_handle_get_login_token (Some sample_pwd) None 0 0 "beef" 4242
     sample_world).1 = ReplyError "Error retrieving user details".
Proof.
  assert (H1 : ∀ p, Some sample_pwd = Some p → 4242 ≠ pw_uid p).
  { intros p [= <-]. discriminate. }
  split; [exact H1|].
  exact (proj1 (stranger_refused_without_directory (Some sample_pwd)
                  0 0 "beef" 4242 sample_world H1)).
Defined.

Lemma reachable_timers_witness :
  reachable_world (Some sample_pwd) 1%positive true sample_after_run ∧
  timers_consistent sample_after_run ∧
  auto_stop_timeout_source (pub sample_after_run) = Some 2%positive.
Proof.
  split; [exact sample_after_run_reachable|].
  destruct (reachable_timers (Some sample_pwd) 1%positive true
              sample_after_run sample_after_run_reachable)
    as (R1 & _ & R2 & _).
  split; [exact R1 | exact R2].
Defined.

Lemma reachable_watches_witness :
  reachable_world (Some sample_pwd) 1%positive true sample_after_run ∧
  watches_consistent sample_after_run.
Proof.
  split; [exact sample_after_run_reachable|].
  exact (proj1 (reachable_watches (Some sample_pwd) 1%positive true
                  sample_after_run ":1.42" ":1.43" 1%positive
                  sample_after_run_reachable)).
Defined.

Lemma reachable_process_hold_witness :
  reachable_world (Some sample_pwd) 1%positive true sample_after_run ∧
  0 ≤ use_count (app sample_after_run) ≤ 1.
Proof.
  split; [exact sample_after_run_reachable|].
  destruct (reachable_process_hold (Some sample_pwd) 1%positive true
              sample_after_run sample_after_run_reachable)
    as (_ & _ & _ & R).
  exact R.
Defined.

Lemma reachable_token_store_witness :
  reachable_world (Some sample_pwd) 1%positive true sample_after_run ∧
  wf_store (login_tokens (app sample_after_run)).
Proof.
  split; [exact sample_after_run_reachable|].
  exact (proj2 (reachable_token_store (Some sample_pwd) 1%positive true
                  sample_after_run sample_after_run_reachable)).
Defined.

Lemma calls_keep_process_hold_witness :
  (∀ id, TurnStop ≠ TurnTimeout id) ∧
  use_count (app (run_turn (Some sample_pwd) TurnStop sample_after_run))
    = use_count (app sample_after_run) ∧
  hold_calls (app (run_turn (Some sample_pwd) TurnStop sample_after_run))
    = (hold_calls (app sample_after_run) + 1)%nat.
Proof.
  assert (H1 : ∀ id, TurnStop ≠ TurnTimeout id) by (intros id; discriminate).
  split; [exact H1|].
  destruct (calls_keep_process_hold (Some sample_pwd) TurnStop
              sample_after_run H1) as (_ & R & _ & R' & _).
  split; [exact R | exact R'].
Defined.

Lemma disarmed_timer_cannot_fire_witness :
  stop_kolibri_timeout_source (pub sample_armed_with_client)
    = Some 3%positive ∧
  (0 < clients_count (pub sample_armed_with_client))%nat ∧
  dispatch 3%positive (auto_stop_timeout_cb sample_armed_with_client).1
    = (auto_stop_timeout_cb sample_armed_with_client).1.
Proof.
  assert (H1 : stop_kolibri_timeout_source (pub sample_armed_with_client)
               = Some 3%positive) by (vm_compute; reflexivity).
  assert (H2 : (0 < clients_count (pub sample_armed_with_client))%nat)
    by (vm_compute; lia).
  split; [exact H1|]. split; [exact H2|].
  destruct (disarmed_timer_cannot_fire sample_armed_with_client 3%positive
              H1 H2) as (_ & _ & R & _).
  exact R.
Defined.

Lemma shutdown_silences_periodic_timers_witness :
  timers_consistent sample_armed_with_client ∧
  auto_stop_timeout_source (pub (public_shutdown sample_armed_with_client))
    = None ∧
  stop_kolibri_timeout_source (pub (public_shutdown sample_armed_with_client))
    = Some 3%positive.
Proof.
  assert (H1 : timers_consistent sample_armed_with_client).
  { apply timers_hold_for_client, timers_tick, timers_world_init. }
  split; [exact H1|].
  destruct (shutdown_silences_periodic_timers sample_armed_with_client H1)
    as (_ & R1 & R2 & _).
  split; [exact R1|]. etransitivity; [exact R2|]. vm_compute. reflexivity.
Defined.

Lemma stop_timer_arm_disarm_witness :
  timers_consistent sample_world ∧
  stop_kolibri_timeout_source (pub sample_world) = None ∧
  live (main_loop (cancel_stop_kolibri_timeout
                     (begin_stop_kolibri_timeout sample_world)))
    = live (main_loop sample_world).
Proof.
  assert (H1 : timers_consistent sample_world) by apply timers_world_init.
  assert (H2 : stop_kolibri_timeout_source (pub sample_world) = None)
    by reflexivity.
  split; [exact H1|]. split; [exact H2|].
  destruct (stop_timer_arm_disarm sample_world) as (_ & _ & R).
  exact (proj1 (R H1 H2)).
Defined.

Lemma stop_timeout_reaches_next_arming_witness :
  0 < 5 ≤ 2147483647 ∧
  stop_kolibri_timeout_interval
    (pub (do_handle_local_options
            (App.mkOptions None (Some true) (Some 5)) sample_world).1) = 5.
Proof.
  assert (H1 : 0 < 5 ≤ 2147483647) by lia.
  split; [exact H1|].
  exact (proj1 (stop_timeout_reaches_next_arming sample_world
                  None (Some true) 5 H1)).
Defined.

(** ** Stability of the tick, and hold followed by release *)

Section Stability.
Context {SM : Type} {HSM : ServiceManager SM}.

Local Abbreviation world := (World SM).

Lemma hold_with_token_twice t a :
  App.hold_with_token t (App.hold_with_token t a) = App.hold_with_token t a.
Proof.
  unfold App.hold_with_token at 1.
  rewrite bool_decide_eq_false_2; [done|].
  intros Hn. apply Hn. apply hold_with_token_elem.
Qed.

Lemma release_with_token_twice t a :
  App.release_with_token t (App.release_with_token t a)
  = App.release_with_token t a.
Proof.
  unfold App.release_with_token at 1.
  rewrite bool_decide_eq_false_2; [done|].
  apply release_with_token_elem.
Qed.

Lemma tick_shape (w : world) :
  let w' := (auto_stop_timeout_cb w).1 in
  let idle := bool_decide (clients_count (pub w) = 0%nat)
              && sm_is_running (sm_cleanup (service_manager (pub w))) in
  let busy := bool_decide (0 < clients_count (pub w))%nat
              || sm_is_running (sm_cleanup (service_manager (pub w))) in
  hold_clients (pub w') = hold_clients (pub w) ∧
  self_token (pub w') = self_token (pub w) ∧
  service_manager (pub w') = sm_cleanup (service_manager (pub w)) ∧
  stop_kolibri_timeout_interval (pub w')
    = stop_kolibri_timeout_interval (pub w) ∧
  name_watches w' = name_watches w ∧
  app w' = (if busy
            then App.hold_with_token (self_token (pub w)) (app w)
            else App.release_with_token (self_token (pub w)) (app w)) ∧
  (if idle then is_Some (stop_kolibri_timeout_source (pub w'))
   else stop_kolibri_timeout_source (pub w') = None).
Proof.
  cbv zeta.
  destruct (sm_is_running (sm_cleanup (service_manager (pub w)))) eqn:Er;
    destruct (stop_kolibri_timeout_source (pub w)) as [id|] eqn:Es;
    destruct (bool_decide (size (hold_clients (pub w)) = 0%nat)) eqn:Eb1;
    destruct (bool_decide (0 < size (hold_clients (pub w)))%nat) eqn:Eb2.
  all: unfold auto_stop_timeout_cb, is_running, clients_count,
         begin_stop_kolibri_timeout, cancel_stop_kolibri_timeout.
  all: repeat (cbn; rewrite ?Er, ?Es, ?Eb1, ?Eb2).
  all: split_and!; done.
Qed.

(** X23 — the tick is stable.  If the service manager's cleanup is
    idempotent, a second reconciliation tick right after the first changes
    neither the sources in the main loop, nor the stop timer's handle, nor
    the hold tokens and the use count, nor the service manager's state: the
    timer is not re-created and the process hold is not taken twice. *)
Theorem tick_is_stable (w : world) :
  (∀ s : SM, sm_cleanup (sm_cleanup s) = sm_cleanup s) →
  let w1 := (auto_stop_timeout_cb w).1 in
  let w2 := (auto_stop_timeout_cb w1).1 in
  main_loop w2 = main_loop w1 ∧
  stop_kolibri_timeout_source (pub w2) = stop_kolibri_timeout_source (pub w1) ∧
  app w2 = app w1 ∧
  service_manager (pub w2) = service_manager (pub w1) ∧
  hold_clients (pub w2) = hold_clients (pub w1).
Proof.
  intros Hidem w1 w2.
  destruct (tick_shape w) as (Hh & Hself & Hsm & _ & _ & Happ & Harm).
  destruct (tick_shape w1) as (Hh2 & _ & Hsm2 & _ & _ & Happ2 & _).
  destruct (tick_fields w1) as [_ Ht2].
  cbv zeta in *. fold w1 in Hh, Hself, Hsm, Happ, Harm, Hh2, Hsm2, Happ2, Ht2.
  fold w2 in Hh2, Hsm2, Happ2, Ht2.
  unfold clients_count in *.
  rewrite Hsm, Hidem, Hh, Hself in *.
  clearbody w2 w1.
  set (idle := bool_decide (size (hold_clients (pub w)) = 0%nat)
               && sm_is_running (sm_cleanup (service_manager (pub w)))) in *.
  set (busy := bool_decide (0 < size (hold_clients (pub w)))%nat
               || sm_is_running (sm_cleanup (service_manager (pub w)))) in *.
  assert (Hpair : (stop_kolibri_timeout_source (pub w2), main_loop w2)
                  = (stop_kolibri_timeout_source (pub w1), main_loop w1)).
  { rewrite Ht2. destruct idle.
    - destruct Harm as [i ->]. done.
    - by rewrite Harm. }
  injection Hpair as Hs Hml.
  split_and!; [done|done| |congruence|congruence].
  rewrite Happ2, Happ. destruct busy.
  - apply hold_with_token_twice.
  - apply release_with_token_twice.
Qed.

(** X24 — a hold followed by a release leaves no trace.  From a state
    whose watchers are consistent, holding a client that was not held and
    releasing it again gives back the same registry and the same live
    watchers, and touches neither the application nor the main loop. *)
Theorem hold_then_release (w : world) c n :
  watches_consistent w →
  n ∉ dom (hold_clients (pub w)) →
  let w' := release_for_client n (hold_for_client c n w) in
  hold_clients (pub w') = hold_clients (pub w) ∧
  live (name_watches w') = live (name_watches w) ∧
  app w' = app w ∧
  main_loop w' = main_loop w.
Proof.
  intros [H1 _] Hn. pose proof Hn as Hn'. apply not_elem_of_dom in Hn'.
  unfold hold_for_client. rewrite bool_decide_eq_false_2 by done.
  unfold release_for_client. cbn. rewrite lookup_insert_eq. cbn.
  split_and!; try done.
  - by apply delete_insert_id.
  - apply delete_insert_id.
    destruct (live (name_watches w) !! next_id (name_watches w))
      as [[c' n']|] eqn:F; [|done].
    destruct (H1 _ _ _ F) as [Hlt _]. lia.
Qed.

End Stability.

Lemma tick_is_stable_witness :
  (∀ s : bool, sm_cleanup (sm_cleanup s) = sm_cleanup s) ∧
  main_loop (auto_stop_timeout_cb (auto_stop_timeout_cb sample_world).1).1
    = main_loop (auto_stop_timeout_cb sample_world).1.
Proof.
  assert (H1 : ∀ s : bool, sm_cleanup (sm_cleanup s) = sm_cleanup s)
    by (intros s; reflexivity).
  split; [exact H1|].
  exact (proj1 (tick_is_stable sample_world H1)).
Defined.

Lemma hold_then_release_witness :
  watches_consistent sample_world ∧
  (":1.42" ∉ dom (hold_clients (pub sample_world))) ∧
  hold_clients
    (pub (release_for_client ":1.42"
            (hold_for_client 5%positive ":1.42" sample_world)))
    = hold_clients (pub sample_world).
Proof.
  assert (H1 : watches_consistent sample_world)
    by apply watches_world_init.
  assert (H2 : ":1.42" ∉ dom (hold_clients (pub sample_world))).
  { intros H. vm_compute in H. discriminate H. }
  split; [exact H1|]. split; [exact H2|].
  exact (proj1 (hold_then_release sample_world 5%positive ":1.42" H1 H2)).
Defined.

(** ** Checks of the float clock on sample data *)

Example sixty_as_float :
  PyFloat.of_int 60 = SpecFloat.S754_finite false 8444249301319680 (-47).
Proof. vm_compute. reflexivity. Qed.

Example float_sum_rounds : PyFloat.add reading_0_1 60 = reading_60_1.
Proof. vm_compute. reflexivity. Qed.

Example pop_late_token_at_60_1 :
  (pop_login_token reading_60_1 "1000:0a1b" alice_issued_late.2).1
    = Some alice_issued_late.1 ∧
  (pop_login_token reading_after_60_1 "1000:0a1b" alice_issued_late.2).1
    = None.
Proof. vm_compute. done. Qed.

Example pop_alice_at_60 :
  (pop_login_token 60 "1000:0a1b" alice_issued.2).1 = Some alice_issued.1.
Proof. vm_compute. reflexivity. Qed.
